(** * TaxDumpMaker: the dump functions of [dump_functions.py]

    A shallow embedding of [impute_taxons], [getTaxIDFromNCBI],
    [create_names_dump] and [create_nodes_dump], and the properties of the
    names and nodes streams they write.

    Conventions of the embedding.
    - A cell of a pandas frame is a Python value: a [str], the float [nan]
      that pandas puts where a record has no value, or [None].
    - A frame is its header and its rows; a frame is rectangular, and a row
      list shorter than the header reads as padded with [nan], which is what
      pandas builds from records with missing keys. The labels of a header
      are distinct; a label is looked up at its first position.
    - The resolver ([ncbi_instance]) is a parameter: any function from the
      list of names it is asked about to the dictionary it answers, or to
      the exception it raises.
    - The emitters run in a small monad that carries the exception, if one
      is raised, and the trace of resolver calls and of printed warnings.
    - [impute_taxons] works on a heap of frames, so that the frame of the
      caller and the copy the function fills are different objects. The
      frames of that heap are frames all of whose columns hold Python
      objects or text (dtype [object] or [str]). The module [Typed] has the
      same function on frames with column dtypes: there a column of dtype
      [float64] takes no text (pandas 3).
    - A frame that pandas builds from names holds names and [nan]. Whether
      a stored [None] comes out of [iterrows] as [None] or as [nan] depends
      on the dtypes and on the version of pandas, so the statements in
      which the comparison of two missing cells matters are about frames
      without [None]. *)

From Stdlib Require Import ZArith Ascii String.
From stdpp Require Import base option list gmap sets strings pretty.

Open Scope string_scope.
Open Scope list_scope.

(** ** Python values and text *)

Inductive cell : Type :=
  | Str (s : string)
  | NaN
  | PyNone.

Global Instance cell_eq_dec : EqDecision cell.
Proof. solve_decision. Defined.

Global Instance cell_countable : Countable cell.
Proof.
  refine (inj_countable'
    (λ v, match v with Str s => inl s | NaN => inr true | PyNone => inr false end)
    (λ x, match x with inl s => Str s | inr true => NaN | inr false => PyNone end) _).
  by intros [].
Defined.

(** [str(v)], which is also what an f-string writes for [{v}]. *)
Definition py_str (v : cell) : string :=
  match v with
  | Str s => s
  | NaN => "nan"
  | PyNone => "None"
  end.

(** [a != b]: text compares by content, [None] equals only [None], and
    [nan] is unequal to everything, itself included. *)
Definition py_ne (a b : cell) : bool :=
  match a, b with
  | Str s, Str t => negb (bool_decide (s = t))
  | PyNone, PyNone => false
  | _, _ => true
  end.

(** [pd.isnull] and [pd.notna] on a single cell. *)
Definition isnull (v : cell) : bool :=
  match v with
  | Str _ => false
  | NaN | PyNone => true
  end.

Definition notna (v : cell) : bool := negb (isnull v).

(** [str(i)] for a Python [int]. *)
Definition str (i : Z) : string := pretty i.

Definition TAB : string := String "009"%char "".
Definition NL : string := String "010"%char "".

(** The field separator of both dump formats, a pipe between two tabs. *)
Definition SEP : string := TAB +:+ "|" +:+ TAB.

Definition lower_char (c : ascii) : ascii :=
  let n := nat_of_ascii c in
  if bool_decide (65 ≤ n ≤ 90)%nat then ascii_of_nat (n + 32) else c.

(** [s.lower()] on ASCII text. *)
Fixpoint lower (s : string) : string :=
  match s with
  | EmptyString => EmptyString
  | String c s' => String (lower_char c) (lower s')
  end.

(** ** Exceptions, results and the emitter monad *)

Inductive exn : Type :=
  | IndexError
  | KeyError (label : string)
  | TypeError
  | ResolverError (what : string).

Inductive result (A : Type) : Type :=
  | Ok (a : A)
  | Err (e : exn).
Arguments Ok {A} a.
Arguments Err {A} e.

(** What a run does besides computing its lines: it asks the resolver, and
    it prints warnings. *)
Inductive event : Type :=
  | Resolve (names : list cell)
  | Stdout (msg : string).

Definition M (A : Type) : Type := result (A * list event).

Global Instance M_ret : MRet M := λ A a, Ok (a, []).

Global Instance M_bind : MBind M := λ A B f m,
  match m with
  | Err e => Err e
  | Ok (a, t1) =>
      match f a with
      | Err e => Err e
      | Ok (b, t2) => Ok (b, t1 ++ t2)
      end
  end.

Definition ret {A} (a : A) : M A := mret a.

Definition raise {A} (e : exn) : M A := Err e.

Definition lift {A} (r : result A) : M A :=
  match r with
  | Ok a => ret a
  | Err e => raise e
  end.

Definition tell (ev : event) : M unit := Ok (tt, [ev]).

(** A [for] loop over a list that threads the loop variables. *)
Fixpoint foldM {S X} (body : S → X → M S) (s : S) (xs : list X) : M S :=
  match xs with
  | [] => ret s
  | x :: xs' => s' ← body s x; foldM body s' xs'
  end.

(** The resolver calls of a trace. *)
Definition calls (t : list event) : list (list cell) :=
  omap (λ ev, match ev with Resolve ns => Some ns | Stdout _ => None end) t.

(** ** Frames *)

Record DataFrame : Type := {
  columns : list string;
  values : list (list cell)
}.

(** A row of a frame, as [iloc] and [iterrows] hand it out: the labels and
    the cells under them. The cells are handed out as they are stored. *)
Record Series : Type := {
  labels : list string;
  cells : list cell
}.

Definition rows (df : DataFrame) : list Series :=
  map (λ r, {| labels := columns df; cells := r |}) (values df).

(** [df.iloc[0]] *)
Definition iloc0 (df : DataFrame) : result Series :=
  match rows df with
  | [] => Err IndexError
  | r :: _ => Ok r
  end.

(** The position of a label in a header. *)
Fixpoint index_of (label : string) (ls : list string) : option nat :=
  match ls with
  | [] => None
  | l :: ls' => if decide (l = label) then Some 0%nat else S <$> index_of label ls'
  end.

(** [row[label]] *)
Definition series_get (row : Series) (label : string) : result cell :=
  match index_of label (labels row) with
  | None => Err (KeyError label)
  | Some i => Ok (default NaN (cells row !! i))
  end.

(** [s[0]] on text. *)
Definition str_head (s : string) : result string :=
  match s with
  | EmptyString => Err IndexError
  | String c _ => Ok (String c "")
  end.

(** ** The resolver and [getTaxIDFromNCBI] *)

(** The dictionary [get_name_translator] answers: the names it knows, each
    with its tax ids. *)
Definition dict : Type := list (cell * list Z).

Record NCBITaxa : Type := {
  get_name_translator : list cell → result dict
}.

(** A call of [ncbi_instance.get_name_translator], recorded in the trace. *)
Definition ask (ncbi_instance : NCBITaxa) (names : list cell) : M dict :=
  match get_name_translator ncbi_instance names with
  | Ok d => Ok (d, [Resolve names])
  | Err e => Err e
  end.

Definition warning (taxa : cell) : string :=
  "Warning: NCBI: Unable to match tax ID for '" +:+ py_str taxa +:+ "'".

Definition getTaxIDFromNCBI (taxa : cell) (ncbi_instance : NCBITaxa) : M cell :=
  taxid ← ask ncbi_instance [taxa];
  match taxid with
  | (_, ids) :: _ =>
      match ids with
      | t :: _ => ret (Str (str t))
      | [] => raise IndexError
      end
  | [] =>
      tell (Stdout (warning taxa)) ;; ret taxa
  end.

(** ** [create_names_dump] *)

Definition rank_order : list string :=
  ["kingdom"; "phylum"; "class"; "order"; "family"; "genus"; "species"].

Definition names_tail : string :=
  TAB +:+ "|" +:+ TAB +:+ TAB +:+ "|" +:+ TAB +:+ "scientific name" +:+ NL.

(** A line of the names stream: identifier, label, the empty unique-name
    field, the name class. *)
Definition names_line (tax_id scientific_name_entry : string) : string :=
  tax_id +:+ SEP +:+ scientific_name_entry +:+ names_tail.

Definition root_names_line : string := names_line "1" "root".

(** [write_line] of [create_names_dump]. *)
Definition names_write_line (ncbi_instance : NCBITaxa)
    (level : string) (name : cell) : M string :=
  tax_id ← getTaxIDFromNCBI name ncbi_instance;
  scientific_name_entry ←
    (if py_ne name (Str "root")
     then l0 ← lift (str_head level); ret (l0 +:+ "__" +:+ py_str name)
     else ret "root");
  ret (names_line (py_str tax_id) scientific_name_entry).

(** The loop over [rank_order] for the first record. *)
Definition names_first (ncbi_instance : NCBITaxa) (first_entry : Series)
    (lines : list string) : M (list string) :=
  foldM (λ lines level,
    l0 ← lift (str_head level);
    name ← lift (series_get first_entry level);
    line ← names_write_line ncbi_instance l0 name;
    ret (lines ++ [line])) lines rank_order.

(** The loop over [rank_order] for a later record. *)
Definition names_next (ncbi_instance : NCBITaxa) (previous row : Series)
    (lines : list string) : M (list string) :=
  foldM (λ lines level,
    a ← lift (series_get row level);
    b ← lift (series_get previous level);
    if py_ne a b
    then
      l0 ← lift (str_head level);
      name ← lift (series_get row level);
      line ← names_write_line ncbi_instance l0 name;
      ret (lines ++ [line])
    else ret lines) lines rank_order.

(** The lines handed to [writelines]; an exception leaves no file. *)
Definition create_names_dump (speciesSorted : DataFrame)
    (ncbi_instance : NCBITaxa) : M (list string) :=
  let lines := [root_names_line] in
  first_entry ← lift (iloc0 speciesSorted);
  lines ← names_first ncbi_instance first_entry lines;
  st ← foldM (λ (st : list string * Series) row,
          lines ← names_next ncbi_instance st.2 row st.1;
          ret (lines, row))
        (lines, first_entry) (drop 1 (rows speciesSorted));
  ret st.1.

(** ** [create_nodes_dump] *)

Definition nodes_line (child_id parent_id formatted_rank : string) : string :=
  child_id +:+ SEP +:+ parent_id +:+ SEP +:+ formatted_rank +:+ TAB +:+ "|" +:+ NL.

Definition root_nodes_line : string := nodes_line "1" "1" "no rank".

(** [getTaxIDFromNCBI(parent, ...) if parent != "root" else "1"] *)
Definition parent_tax_id (ncbi_instance : NCBITaxa) (parent : cell) : M cell :=
  if py_ne parent (Str "root")
  then getTaxIDFromNCBI parent ncbi_instance
  else ret (Str "1").

(** [write_line] of [create_nodes_dump]. *)
Definition nodes_write_line (ncbi_instance : NCBITaxa)
    (child parent : cell) (rank : string) : M string :=
  child_id ← getTaxIDFromNCBI child ncbi_instance;
  parent_id ← parent_tax_id ncbi_instance parent;
  let formatted_rank :=
    match rank with
    | EmptyString => "no rank"
    | _ => lower rank
    end in
  ret (nodes_line (py_str child_id) (py_str parent_id) formatted_rank).

(** The loop variables of the nodes emitter: the lines so far and the set
    of pairs already written. *)
Definition nodes_state : Type := list string * gset (cell * cell).

(** The walk down the ranks of one record; it ends at the first rank
    without a value. *)
Fixpoint nodes_walk (ncbi_instance : NCBITaxa) (row : Series)
    (ranks : list string) (parent : cell) (st : nodes_state) : M nodes_state :=
  match ranks with
  | [] => ret st
  | rank :: ranks' =>
      child ← lift (series_get row rank);
      if notna child then
        child_id ← getTaxIDFromNCBI child ncbi_instance;
        parent_id ← parent_tax_id ncbi_instance parent;
        let node_pair := (child_id, parent_id) in
        st' ← (if decide (node_pair ∉ st.2)
               then
                 line ← nodes_write_line ncbi_instance child parent rank;
                 ret (st.1 ++ [line], st.2 ∪ {[node_pair]})
               else ret st);
        nodes_walk ncbi_instance row ranks' child st'
      else ret st
  end.

Definition available_ranks (speciesSorted : DataFrame) : list string :=
  filter (λ rank, rank ∈ columns speciesSorted) rank_order.

Definition create_nodes_dump (speciesSorted : DataFrame)
    (ncbi_instance : NCBITaxa) : M (list string) :=
  let lines := [root_nodes_line] in
  let written_nodes : gset (cell * cell) := {[ (Str "1", Str "1") ]} in
  st ← foldM (λ st row,
          nodes_walk ncbi_instance row (available_ranks speciesSorted) (Str "root") st)
        (lines, written_nodes) (rows speciesSorted);
  ret st.1.

(** ** [impute_taxons] *)

(** Frames are objects: a variable holds a reference into a heap of
    frames, and [iloc] assignment changes the frame in place. The columns
    of the frames of this heap hold Python objects or text, so that a cell
    takes any value; the frames with [float64] columns, whose cells take no
    text, are in the module [Typed]. *)
Abbreviation loc := nat (only parsing).
Abbreviation heap := (gmap nat DataFrame) (only parsing).

(** [df.copy()]: a new object with the contents of the old one. *)
Definition df_copy (df : loc) (h : heap) : option (loc * heap) :=
  d ← h !! df;
  let l := fresh (dom h) in
  Some (l, <[l := d]> h).

Definition replace_cell (to_replace : string) (value : cell) (v : cell) : cell :=
  if decide (v = Str to_replace) then value else v.

(** [df.replace(to_replace, value)]: a new object, the cells equal to
    [to_replace] changed to [value] (pandas 1.4 and later, where an explicit
    [None] is a value like any other). *)
Definition df_replace (df : loc) (to_replace : string) (value : cell)
    (h : heap) : option (loc * heap) :=
  d ← h !! df;
  let l := fresh (dom h) in
  Some (l, <[l := {| columns := columns d;
                     values := map (map (replace_cell to_replace value)) (values d) |}]> h).

(** The column positions, counted from [c], of the null cells of a row. *)
Fixpoint null_columns (c : nat) (row : list cell) : list nat :=
  match row with
  | [] => []
  | v :: row' =>
      if isnull v then c :: null_columns (S c) row' else null_columns (S c) row'
  end.

(** The pairs that [np.where] and [zip] give for [pd.isnull(df)], for the
    rows from [r] on: the positions of the null cells, row by row. *)
Fixpoint where_isnull (r : nat) (vals : list (list cell)) : list (nat * nat) :=
  match vals with
  | [] => []
  | row :: vals' => map (λ c, (r, c)) (null_columns 0 row) ++ where_isnull (S r) vals'
  end.

(** [values[r][c] = v]; [None] is the [IndexError] of a position outside
    the frame. *)
Definition set_cell (vals : list (list cell)) (r c : nat) (v : cell)
    : option (list (list cell)) :=
  row ← vals !! r;
  _ ← row !! c;
  Some (<[r := <[c := v]> row]> vals).

(** [df.iloc[r, c] = v], in a column that holds objects. *)
Definition iloc_set (df : loc) (r c : nat) (v : cell) (h : heap) : option heap :=
  d ← h !! df;
  vals ← set_cell (values d) r c v;
  Some (<[df := {| columns := columns d; values := vals |}]> h).

Definition placeholder (i : Z) : cell := Str ("unknown" +:+ str i).

(** The loop over the null positions, with its counter [i]. *)
Fixpoint impute_loop (taxon_df : loc) (positions : list (nat * nat)) (i : Z)
    (h : heap) : option heap :=
  match positions with
  | [] => Some h
  | (r, c) :: positions' =>
      h' ← iloc_set taxon_df r c (placeholder i) h;
      impute_loop taxon_df positions' (i + 1) h'
  end.

(** The reference returned and the heap after the call. *)
Definition impute_taxons (taxon_df : loc) (h : heap) : option (loc * heap) :=
  '(taxon_df, h) ← df_copy taxon_df h;
  '(taxon_df, h) ← df_replace taxon_df "unknown_rank_name" PyNone h;
  d ← h !! taxon_df;
  let positions := where_isnull 0 (values d) in
  h ← impute_loop taxon_df positions 1 h;
  Some (taxon_df, h).

(** A cell is missing when it is null or holds the sentinel that the
    lineage lookup leaves for a rank it cannot name. *)
Definition missing (v : cell) : bool :=
  isnull v || bool_decide (v = Str "unknown_rank_name").

(** How many of the cells [vs] are missing. *)
Definition count_missing (vs : list cell) : nat :=
  length (filter (λ v, missing v = true) vs).

(** ** What the imputer computes

    The loop of [impute_taxons] visits positions; the definitions below say
    what it leaves behind, cell by cell, in the order of the scan. *)

(** The scan of a list of cells with the counter at [i]: every null cell
    takes the placeholder of the counter, which then moves on. *)
Fixpoint fill (i : Z) (vs : list cell) : list cell :=
  match vs with
  | [] => []
  | v :: vs' =>
      if isnull v then placeholder i :: fill (i + 1) vs' else v :: fill i vs'
  end.

Definition count_null (vs : list cell) : nat :=
  length (filter (λ v, isnull v = true) vs).

(** The scan of the rows, one after the other. *)
Fixpoint fill_rows (i : Z) (vals : list (list cell)) : list (list cell) :=
  match vals with
  | [] => []
  | row :: vals' => fill i row :: fill_rows (i + Z.of_nat (count_null row)) vals'
  end.

(** The loop of [impute_taxons] on the cells alone, without the heap. *)
Fixpoint set_all (positions : list (nat * nat)) (i : Z)
    (vals : list (list cell)) : option (list (list cell)) :=
  match positions with
  | [] => Some vals
  | (r, c) :: positions' =>
      vals' ← set_cell vals r c (placeholder i);
      set_all positions' (i + 1) vals'
  end.

(** The frame [impute_taxons] returns for the frame [df]. *)
Definition imputed (df : DataFrame) : DataFrame :=
  {| columns := columns df;
     values := fill_rows 1 (map (map (replace_cell "unknown_rank_name" PyNone)) (values df)) |}.

(** The cell in row [r] and column [c], both counted from 0. *)
Definition cell_at (df : DataFrame) (r c : nat) : option cell :=
  values df !! r ≫= (.!! c).

(** The cells a row-major scan visits before it reaches row [r], column
    [c]. *)
Definition scanned_before (df : DataFrame) (r c : nat) : list cell :=
  concat (take r (values df)) ++ take c (default [] (values df !! r)).

(** ** Column dtypes

    A pandas frame has a dtype for each column. Reading a cell does not
    depend on it, assigning to a cell does: in pandas 3 the assignment of
    a text to a cell of a [float64] column raises [TypeError]. A column is
    [float64] when pandas built it from [nan] alone. *)

Inductive dtype : Type :=
  | object
  | float64.

Global Instance dtype_eq_dec : EqDecision dtype.
Proof. solve_decision. Defined.

(** A frame with the dtypes of its columns; [object] stands for every
    dtype that holds text ([object] and [str]). *)
Record TypedFrame : Type := {
  frame : DataFrame;
  dtypes : list dtype
}.

(** The frame with its header and dtypes and with other cells. *)
Definition with_values (d : TypedFrame) (vals : list (list cell)) : TypedFrame :=
  {| frame := {| columns := columns (frame d); values := vals |};
     dtypes := dtypes d |}.

(** A frame in which every missing cell can take a placeholder: none lies
    in a [float64] column. *)
Definition takes_text (d : TypedFrame) : Prop :=
  ∀ r c v, cell_at (frame d) r c = Some v → missing v = true →
           dtypes d !! c ≠ Some float64.

(** [impute_taxons] on a heap of frames with dtypes. A call returns a
    reference or raises, and leaves a heap in both cases. *)
Module Typed.

(** [df.copy()] *)
Definition df_copy (df : nat) (h : gmap nat TypedFrame)
    : option (nat * gmap nat TypedFrame) :=
  d ← h !! df;
  let l := fresh (dom h) in
  Some (l, <[l := d]> h).

(** [df.replace(to_replace, value)]; the dtypes stay. *)
Definition df_replace (df : nat) (to_replace : string) (value : cell)
    (h : gmap nat TypedFrame) : option (nat * gmap nat TypedFrame) :=
  d ← h !! df;
  let l := fresh (dom h) in
  Some (l, <[l := with_values d
                    (map (map (replace_cell to_replace value)) (values (frame d)))]> h).

(** [df.iloc[r, c] = s] for a text [s]: [IndexError] outside the frame,
    [TypeError] in a [float64] column. *)
Definition iloc_set (df : nat) (r c : nat) (s : string) (h : gmap nat TypedFrame)
    : option (result unit * gmap nat TypedFrame) :=
  d ← h !! df;
  match set_cell (values (frame d)) r c (Str s) with
  | None => Some (Err IndexError, h)
  | Some vals =>
      match dtypes d !! c with
      | Some float64 => Some (Err TypeError, h)
      | _ => Some (Ok tt, <[df := with_values d vals]> h)
      end
  end.

(** The loop over the null positions, with its counter [i]. *)
Fixpoint impute_loop (taxon_df : nat) (positions : list (nat * nat)) (i : Z)
    (h : gmap nat TypedFrame) : option (result unit * gmap nat TypedFrame) :=
  match positions with
  | [] => Some (Ok tt, h)
  | (r, c) :: positions' =>
      match iloc_set taxon_df r c ("unknown" +:+ str i) h with
      | Some (Ok _, h') => impute_loop taxon_df positions' (i + 1) h'
      | Some (Err e, h') => Some (Err e, h')
      | None => None
      end
  end.

(** What the call returns or raises, and the heap after it. *)
Definition impute_taxons (taxon_df : nat) (h : gmap nat TypedFrame)
    : option (result nat * gmap nat TypedFrame) :=
  '(taxon_df, h) ← df_copy taxon_df h;
  '(taxon_df, h) ← df_replace taxon_df "unknown_rank_name" PyNone h;
  d ← h !! taxon_df;
  let positions := where_isnull 0 (values (frame d)) in
  '(r, h) ← impute_loop taxon_df positions 1 h;
  Some (match r with
        | Ok _ => Ok taxon_df
        | Err e => Err e
        end, h).

End Typed.

(** ** What the emitters compute

    The emitters are loops with loop variables; the definitions below say,
    without loops, which cells and which walk steps they turn into lines. *)

(** A loop that collects what its body returns. *)
Fixpoint mapM {X Y} (f : X → M Y) (xs : list X) : M (list Y) :=
  match xs with
  | [] => ret []
  | x :: xs' => y ← f x; ys ← mapM f xs'; ret (y :: ys)
  end.

(** What [getTaxIDFromNCBI] returns, without its trace. *)
Definition tax_id (ncbi_instance : NCBITaxa) (taxa : cell) : result cell :=
  match get_name_translator ncbi_instance [taxa] with
  | Err e => Err e
  | Ok [] => Ok taxa
  | Ok ((_, t :: _) :: _) => Ok (Str (str t))
  | Ok ((_, []) :: _) => Err IndexError
  end.

Definition is_Ok {A} (r : result A) : Prop := ∃ a, r = Ok a.

(** The identifier of a name that the resolver answers for. *)
Definition the_id (ncbi_instance : NCBITaxa) (taxa : cell) : cell :=
  match tax_id ncbi_instance taxa with
  | Ok v => v
  | Err _ => taxa
  end.

(** A resolver that answers every question, with a miss or with tax ids. *)
Definition working (ncbi_instance : NCBITaxa) : Prop :=
  ∀ taxa, is_Ok (tax_id ncbi_instance taxa).

(** The cell of a row under a label of its header. *)
Definition cell_of (row : Series) (label : string) : cell :=
  match series_get row label with
  | Ok v => v
  | Err _ => NaN
  end.

(** The first letter of a rank label. *)
Definition initial (level : string) : string :=
  match level with
  | EmptyString => EmptyString
  | String c _ => String c ""
  end.

(** The label field of a names line. *)
Definition names_entry (level : string) (name : cell) : string :=
  if py_ne name (Str "root")
  then initial level +:+ "__" +:+ py_str name
  else "root".

(** The names line of a cell: the rank label it stands under and its
    value. *)
Definition names_line_of (ncbi_instance : NCBITaxa) (c : string * cell) : string :=
  names_line (py_str (the_id ncbi_instance c.2)) (names_entry c.1 c.2).

Definition write_cell (ncbi_instance : NCBITaxa) (c : string * cell) : M string :=
  names_write_line ncbi_instance (initial c.1) c.2.

(** The cells of the first record: one for each rank. *)
Definition record_cells (row : Series) : list (string * cell) :=
  map (λ level, (level, cell_of row level)) rank_order.

(** The cells of a later record that differ from the cells above them. *)
Definition changed_cells (previous row : Series) : list (string * cell) :=
  map (λ level, (level, cell_of row level))
      (filter (λ level, py_ne (cell_of row level) (cell_of previous level) = true)
              rank_order).

Fixpoint later_cells (previous : Series) (later : list Series) : list (string * cell) :=
  match later with
  | [] => []
  | row :: later' => changed_cells previous row ++ later_cells row later'
  end.

(** The cells that get a names line, in the order of their lines. *)
Definition emitted_cells (df : DataFrame) : list (string * cell) :=
  match rows df with
  | [] => []
  | first_entry :: later => record_cells first_entry ++ later_cells first_entry later
  end.

(** A step of a walk: the child, the parent and the rank of the child. *)
Definition step : Type := cell * cell * string.

(** The steps of the walk of a record down [ranks], below [parent]: one
    for each rank, up to the first rank without a value. *)
Fixpoint steps_of (row : Series) (ranks : list string) (parent : cell) : list step :=
  match ranks with
  | [] => []
  | rank :: ranks' =>
      let child := cell_of row rank in
      if notna child then (child, parent, rank) :: steps_of row ranks' child else []
  end.

(** The steps of all records, in the order of the walks. *)
Definition all_steps (df : DataFrame) : list step :=
  flat_map (λ row, steps_of row (available_ranks df) (Str "root")) (rows df).

Definition the_parent_id (ncbi_instance : NCBITaxa) (parent : cell) : cell :=
  if py_ne parent (Str "root") then the_id ncbi_instance parent else Str "1".

(** The (child identifier, parent identifier) pair of a step. *)
Definition pair_of (ncbi_instance : NCBITaxa) (s : step) : cell * cell :=
  (the_id ncbi_instance s.1.1, the_parent_id ncbi_instance s.1.2).

(** The same pair as it stands on the line of the step. *)
Definition id_pair (ncbi_instance : NCBITaxa) (s : step) : string * string :=
  (py_str (the_id ncbi_instance s.1.1), py_str (the_parent_id ncbi_instance s.1.2)).

Definition formatted (rank : string) : string :=
  match rank with
  | EmptyString => "no rank"
  | _ => lower rank
  end.

(** The nodes line of a step. *)
Definition nodes_line_of (ncbi_instance : NCBITaxa) (s : step) : string :=
  nodes_line (id_pair ncbi_instance s).1 (id_pair ncbi_instance s).2 (formatted s.2).

(** The questions a step puts to the resolver: the child, and the parent
    unless it is the root. *)
Definition step_calls (s : step) : list (list cell) :=
  [s.1.1] :: (if py_ne s.1.2 (Str "root") then [[s.1.2]] else []).

(** A step whose questions the resolver answers. *)
Definition resolvable (ncbi_instance : NCBITaxa) (s : step) : Prop :=
  is_Ok (tax_id ncbi_instance s.1.1) ∧
  (py_ne s.1.2 (Str "root") = true → is_Ok (tax_id ncbi_instance s.1.2)).

(** The body of the walk for one step. *)
Definition process (ncbi_instance : NCBITaxa) (st : nodes_state) (s : step)
    : M nodes_state :=
  child_id ← getTaxIDFromNCBI s.1.1 ncbi_instance;
  parent_id ← parent_tax_id ncbi_instance s.1.2;
  if decide ((child_id, parent_id) ∉ st.2)
  then
    line ← nodes_write_line ncbi_instance s.1.1 s.1.2 s.2;
    ret (st.1 ++ [line], st.2 ∪ {[ (child_id, parent_id) ]})
  else ret st.

(** The steps whose pair is not yet in [written], each pair once: the
    steps that get a nodes line. *)
Fixpoint fresh_steps (ncbi_instance : NCBITaxa) (written : gset (cell * cell))
    (steps : list step) : list step :=
  match steps with
  | [] => []
  | s :: steps' =>
      if decide (pair_of ncbi_instance s ∈ written)
      then fresh_steps ncbi_instance written steps'
      else s :: fresh_steps ncbi_instance (written ∪ {[ pair_of ncbi_instance s ]}) steps'
  end.

Definition root_pair : cell * cell := (Str "1", Str "1").

(** The steps that [create_nodes_dump] writes a line for. *)
Definition written_steps (df : DataFrame) (ncbi_instance : NCBITaxa) : list step :=
  fresh_steps ncbi_instance {[ root_pair ]} (all_steps df).

(** The characters of a text, for the arguments that look at single
    characters of a line. *)
Definition chars (s : string) : list ascii := list_ascii_of_string s.

(** A frame whose cells under the seven ranks are names or [nan], none
    [None]: what pandas builds from records of names. *)
Definition no_None (df : DataFrame) : Prop :=
  ∀ row level, row ∈ rows df → level ∈ rank_order → cell_of row level ≠ PyNone.

(** The pairs in [written_nodes] when the nodes emitter comes to the step
    at position [i] of [steps]: the root pair and the pairs of the steps
    before. *)
Definition written_before (ncbi_instance : NCBITaxa) (steps : list step) (i : nat)
    : gset (cell * cell) :=
  {[ root_pair ]} ∪ list_to_set (map (pair_of ncbi_instance) (take i steps)).

(** The questions the nodes emitter puts to the resolver at the step [s]
    at position [i]: about the child and, unless it is the root, about the
    parent; and the same once more, from [write_line], when the pair of the
    step is not yet written. *)
Definition nodes_step_calls (ncbi_instance : NCBITaxa) (steps : list step)
    (i : nat) (s : step) : list (list cell) :=
  step_calls s ++
  (if decide (pair_of ncbi_instance s ∈ written_before ncbi_instance steps i)
   then [] else step_calls s).

(** ** Frames and resolvers of the examples *)

(** A frame with a null cell of each kind and a sentinel. *)
Definition frame_with_gaps : DataFrame :=
  {| columns := ["kingdom"; "phylum"];
     values := [[Str "A"; NaN];
                [Str "unknown_rank_name"; Str "B"];
                [PyNone; NaN]] |}.

(** A resolver that knows no name: every answer is the empty dictionary. *)
Definition knows_nothing : NCBITaxa :=
  {| get_name_translator := λ _, Ok [] |}.

(** A resolver that knows the root and the animals, as NCBI numbers
    them. *)
Definition knows_some : NCBITaxa :=
  {| get_name_translator := λ names,
       match names with
       | [Str "root"] => Ok [(Str "root", [1%Z])]
       | [Str "Metazoa"] => Ok [(Str "Metazoa", [33208%Z])]
       | _ => Ok []
       end |}.

(** A frame with the seven rank columns and no record. *)
Definition no_records : DataFrame :=
  {| columns := rank_order; values := [] |}.

(** A frame with a single column and a single cell. *)
Definition one_cell : DataFrame :=
  {| columns := ["kingdom"]; values := [[Str "A"]] |}.

(** Two dogs and a human. *)
Definition mammals : DataFrame :=
  {| columns := rank_order;
     values :=
       [[Str "Metazoa"; Str "Chordata"; Str "Mammalia"; Str "Carnivora";
         Str "Canidae"; Str "Canis"; Str "Canis lupus"];
        [Str "Metazoa"; Str "Chordata"; Str "Mammalia"; Str "Carnivora";
         Str "Canidae"; Str "Canis"; Str "Canis latrans"];
        [Str "Metazoa"; Str "Chordata"; Str "Mammalia"; Str "Primates";
         Str "Hominidae"; Str "Homo"; Str "Homo sapiens"]] |}.

(** Three sorted records in which the genus G stands under the families F1
    and F3, with the genus H of family F2 between them. *)
Definition genus_twice : DataFrame :=
  {| columns := rank_order;
     values :=
       [[Str "K"; Str "P"; Str "C"; Str "O"; Str "F1"; Str "G"; Str "S1"];
        [Str "K"; Str "P"; Str "C"; Str "O"; Str "F2"; Str "H"; Str "S2"];
        [Str "K"; Str "P"; Str "C"; Str "O"; Str "F3"; Str "G"; Str "S3"]] |}.

(** A record with a kingdom, no phylum, and values below the gap. *)
Definition gap_record : DataFrame :=
  {| columns := rank_order;
     values := [[Str "A"; NaN; Str "B"; Str "C"; Str "D"; Str "E"; Str "F"]] |}.

(** A record whose kingdom cell holds the name of the root. *)
Definition root_named : DataFrame :=
  {| columns := rank_order;
     values := [[Str "root"; Str "P"; Str "C"; Str "O"; Str "F"; Str "G"; Str "S"]] |}.

(** ** More definitions for the properties of the streams *)

(** Steps whose parents are known: the parent identifier of each step is in
    [known] or is the child identifier of a step before it. *)
Fixpoint chained (ncbi_instance : NCBITaxa) (known : list string)
    (steps : list step) : Prop :=
  match steps with
  | [] => True
  | s :: steps' =>
      (id_pair ncbi_instance s).2 ∈ known ∧
      chained ncbi_instance ((id_pair ncbi_instance s).1 :: known) steps'
  end.

(** The identifier pairs on the lines of a nodes stream, the first line
    included. *)
Definition written_pairs (df : DataFrame) (ncbi_instance : NCBITaxa)
    : list (string * string) :=
  ("1", "1") :: map (id_pair ncbi_instance) (written_steps df ncbi_instance).

(** Two records that hold the same under each of the seven ranks, or lack
    the same ranks. *)
Definition same_ranks (row row' : Series) : Prop :=
  ∀ level, level ∈ rank_order → series_get row level = series_get row' level.

(** A frame whose records have a value under every rank. *)
Definition complete (df : DataFrame) : Prop :=
  ∀ row level, row ∈ rows df → level ∈ rank_order →
               notna (cell_of row level) = true.

(** A frame whose rows are as long as its header. *)
Definition rectangular (df : DataFrame) : Prop :=
  Forall (λ r, length r = length (columns df)) (values df).

(** ** The driver, [taxdumpMaker.py]

    The driver prints what it does; printing is left out here, the frames
    and the exceptions are modelled. The methods of pandas and of ete3 that
    the driver calls are parameters. *)

Definition RANK_ORDER : list string :=
  ["no rank"; "domain"; "kingdom"; "phylum"; "class"; "order"; "family";
   "genus"; "species"].

(** [sort_taxonomy_data], with [df.sort_values(by=...)] as a parameter. *)
Definition sort_taxonomy_data
    (sort_values : list string → DataFrame → result DataFrame)
    (df : DataFrame) : DataFrame :=
  let sort_columns := filter (λ col, col ∈ columns df) RANK_ORDER in
  match sort_columns with
  | [] => df
  | _ :: _ =>
      match sort_values sort_columns df with
      | Ok sorted_df => sorted_df
      | Err _ => df
      end
  end.

(** What the driver needs of [sort_values]: the frame it returns has the
    header of the frame it was given, and its records in some order. *)
Definition reorders (sort_values : list string → DataFrame → result DataFrame) : Prop :=
  ∀ by_columns df sorted_df,
    sort_values by_columns df = Ok sorted_df →
    columns sorted_df = columns df ∧ values df ≡ₚ values sorted_df.

(** Sequencing of computations that may raise. *)
Definition and_then {A B} (r : result A) (k : A → result B) : result B :=
  match r with
  | Ok a => k a
  | Err e => Err e
  end.

Fixpoint map_result {X Y} (f : X → result Y) (xs : list X) : result (list Y) :=
  match xs with
  | [] => Ok []
  | x :: xs' =>
      and_then (f x) (λ y, and_then (map_result f xs') (λ ys, Ok (y :: ys)))
  end.

(** Python dictionaries, as the lists of their items in the order of
    insertion. *)
Fixpoint dict_get {K V} `{EqDecision K} (k : K) (d : list (K * V)) : option V :=
  match d with
  | [] => None
  | (k', v) :: d' => if decide (k' = k) then Some v else dict_get k d'
  end.

(** [d[k] = v]: the value of an old key changes in place, a new key goes
    to the end. *)
Fixpoint dict_set {K V} `{EqDecision K} (k : K) (v : V) (d : list (K * V))
    : list (K * V) :=
  match d with
  | [] => [(k, v)]
  | (k', v') :: d' =>
      if decide (k' = k) then (k, v) :: d' else (k', v') :: dict_set k v d'
  end.


(** The methods of ete3's [NCBITaxa], other than [get_name_translator],
    that the driver calls. *)
Record Lineages : Type := {
  get_lineage : Z → result (list Z);
  get_rank : list Z → result (list (Z * string));
  get_taxid_translator : list Z → result (list (Z * string))
}.

(** The comprehension that builds [translated_ranks], from the items left
    and the dictionary so far. *)
Fixpoint translate_ranks (ncbi : Lineages) (items : list (Z * string))
    (translated_ranks : list (string * string)) : result (list (string * string)) :=
  match items with
  | [] => Ok translated_ranks
  | (k, v) :: items' =>
      and_then (get_taxid_translator ncbi [k]) (λ d,
        translate_ranks ncbi items'
          (dict_set (default "unknown_rank_name" (dict_get k d)) v translated_ranks))
  end.

(** [{v: k for k, v in d.items()}] *)
Definition invert (d : list (string * string)) : list (string * string) :=
  fold_left (λ acc item, dict_set item.2 item.1 acc) d [].

(** The body of the [try]: the dictionary from ranks to names of one
    lineage. *)
Definition rank_to_name (ncbi : Lineages) (tax_id : Z) : result (list (string * string)) :=
  and_then (get_lineage ncbi tax_id) (λ lineage,
  and_then (get_rank ncbi lineage) (λ ranks,
  and_then (translate_ranks ncbi ranks []) (λ translated_ranks,
  Ok (invert translated_ranks)))).

(** The loop over the tax ids: a lineage that raises is left out, after a
    call of [get_taxid_translator] for the warning. *)
Fixpoint lineage_loop (ncbi : Lineages) (tax_ids : list Z)
    (dflist : list (list (string * string))) : result (list (list (string * string))) :=
  match tax_ids with
  | [] => Ok dflist
  | tax_id :: tax_ids' =>
      match rank_to_name ncbi tax_id with
      | Ok d => lineage_loop ncbi tax_ids' (dflist ++ [d])
      | Err _ =>
          and_then (get_taxid_translator ncbi [tax_id]) (λ _,
            lineage_loop ncbi tax_ids' dflist)
      end
  end.

(** The keys of some dictionaries, each once, in the order in which they
    are first seen. *)
Fixpoint first_seen (seen keys : list string) : list string :=
  match keys with
  | [] => []
  | k :: keys' =>
      if decide (k ∈ seen) then first_seen seen keys'
      else k :: first_seen (k :: seen) keys'
  end.

(** [pd.DataFrame(dflist)]: a column for each key, a record for each
    dictionary, [nan] where a dictionary lacks a key. *)
Definition DataFrame_of (dflist : list (list (string * string))) : DataFrame :=
  let cols := first_seen [] (concat (map (map fst) dflist)) in
  {| columns := cols;
     values := map (λ d, map (λ col, from_option Str NaN (dict_get col d)) cols) dflist |}.

(** [df[cols]] *)
Definition df_getitem (cols : list string) (df : DataFrame) : result DataFrame :=
  and_then
    (map_result (λ col, match index_of col (columns df) with
                        | Some i => Ok i
                        | None => Err (KeyError col)
                        end) cols)
    (λ positions,
       Ok {| columns := cols;
             values := map (λ r, map (λ i, default NaN (r !! i)) positions) (values df) |}).

(** [get_taxonomy_data]; [None] is the [None] it returns after printing an
    error. The two arguments after the list stand for the one [ncbi]
    object. *)
Definition get_taxonomy_data (speciesList : list string)
    (ncbi_instance : NCBITaxa) (ncbi : Lineages) : result (option DataFrame) :=
  and_then (get_name_translator ncbi_instance (map Str speciesList)) (λ tax_ids_dict,
  match tax_ids_dict with
  | [] => Ok None
  | _ :: _ =>
      and_then (map_result (λ item : cell * list Z,
                  match item.2 with
                  | i :: _ => Ok i
                  | [] => Err IndexError
                  end) tax_ids_dict) (λ tax_ids,
      and_then (lineage_loop ncbi tax_ids []) (λ dflist,
      match dflist with
      | [] => Ok None
      | _ :: _ =>
          let df := DataFrame_of dflist in
          let ordered_columns := filter (λ col, col ∈ columns df) RANK_ORDER in
          and_then (df_getitem ordered_columns df) (λ df, Ok (Some df))
      end))
  end).

(** A dictionary that has the key. *)
Definition has_key (col : string) (d : list (string * string)) : Prop :=
  is_Some (dict_get col d).

(** The dictionaries [get_taxonomy_data] makes its frame of: one for each
    name the resolver knows and whose lineage does not raise. *)
Definition lineage_records (speciesList : list string)
    (ncbi_instance : NCBITaxa) (ncbi : Lineages)
    (dflist : list (list (string * string))) : Prop :=
  ∃ tax_ids_dict tax_ids,
    get_name_translator ncbi_instance (map Str speciesList) = Ok tax_ids_dict ∧
    map_result (λ item : cell * list Z,
                  match item.2 with
                  | i :: _ => Ok i
                  | [] => Err IndexError
                  end) tax_ids_dict = Ok tax_ids ∧
    lineage_loop ncbi tax_ids [] = Ok dflist ∧
    (length dflist ≤ length tax_ids_dict)%nat.

(** The frame of some dictionaries, with the columns in the order of
    [RANK_ORDER]. *)
Definition frame_of_records (dflist : list (list (string * string))) : DataFrame :=
  let cols := filter (λ col, Exists (has_key col) dflist) RANK_ORDER in
  {| columns := cols;
     values := map (λ d, map (λ col, from_option Str NaN (dict_get col d)) cols) dflist |}.




(** ** Further frames, resolvers and sorters of the examples *)

(** A [sort_values] that turns the records round. *)
Definition turn_round (by_columns : list string) (df : DataFrame) : result DataFrame :=
  Ok {| columns := columns df; values := reverse (values df) |}.

(** The lineages of two bacteria, as NCBI has them: no taxon of rank
    kingdom. *)
Definition bacteria_names : NCBITaxa :=
  {| get_name_translator := λ names,
       Ok (omap (λ name, match name with
                         | Str "Escherichia coli" => Some (name, [562%Z])
                         | Str "Bacillus subtilis" => Some (name, [1423%Z])
                         | _ => None
                         end) names) |}.

Definition bacteria : Lineages :=
  {| get_lineage := λ tax_id,
       if decide (tax_id = 562%Z) then Ok [1; 131567; 2; 1224; 1236; 91347; 543; 561; 562]%Z
       else if decide (tax_id = 1423%Z) then Ok [1; 131567; 2; 1239; 91061; 1385; 186817; 1386; 1423]%Z
       else Err (ResolverError "not found");
     get_rank := λ lineage,
       Ok (omap (λ k : Z, (λ rank, (k, rank)) <$>
             (if decide (k = 1) then Some "no rank"
              else if decide (k = 131567) then Some "no rank"
              else if decide (k = 2) then Some "domain"
              else if decide (k = 1224) then Some "phylum"
              else if decide (k = 1236) then Some "class"
              else if decide (k = 91347) then Some "order"
              else if decide (k = 543) then Some "family"
              else if decide (k = 561) then Some "genus"
              else if decide (k = 562) then Some "species"
              else if decide (k = 1239) then Some "phylum"
              else if decide (k = 91061) then Some "class"
              else if decide (k = 1385) then Some "order"
              else if decide (k = 186817) then Some "family"
              else if decide (k = 1386) then Some "genus"
              else if decide (k = 1423) then Some "species"
              else None)%Z) lineage);
     get_taxid_translator := λ tax_ids,
       Ok (omap (λ k : Z, (λ name, (k, name)) <$>
             (if decide (k = 1) then Some "root"
              else if decide (k = 131567) then Some "cellular organisms"
              else if decide (k = 2) then Some "Bacteria"
              else if decide (k = 1224) then Some "Pseudomonadota"
              else if decide (k = 1236) then Some "Gammaproteobacteria"
              else if decide (k = 91347) then Some "Enterobacterales"
              else if decide (k = 543) then Some "Enterobacteriaceae"
              else if decide (k = 561) then Some "Escherichia"
              else if decide (k = 562) then Some "Escherichia coli"
              else if decide (k = 1239) then Some "Bacillota"
              else if decide (k = 91061) then Some "Bacilli"
              else if decide (k = 1385) then Some "Bacillales"
              else if decide (k = 186817) then Some "Bacillaceae"
              else if decide (k = 1386) then Some "Bacillus"
              else if decide (k = 1423) then Some "Bacillus subtilis"
              else None)%Z) tax_ids) |}.

(** A resolver that raises on a name that is not text, as a resolver that
    lower-cases the names does, and knows no name. *)
Definition refuses_null : NCBITaxa :=
  {| get_name_translator := λ names,
       if forallb notna names then Ok []
       else Err (ResolverError "the name is not text") |}.

(** The frame [one_cell] with a column that is no rank. *)
Definition one_cell_noted : DataFrame :=
  {| columns := ["note"; "kingdom"]; values := [[Str "n"; Str "A"]] |}.

(** The frame [mammals] with the first dog once more, after the second
    dog. *)
Definition mammals_again : DataFrame :=
  {| columns := rank_order;
     values :=
       [[Str "Metazoa"; Str "Chordata"; Str "Mammalia"; Str "Carnivora";
         Str "Canidae"; Str "Canis"; Str "Canis lupus"];
        [Str "Metazoa"; Str "Chordata"; Str "Mammalia"; Str "Carnivora";
         Str "Canidae"; Str "Canis"; Str "Canis latrans"];
        [Str "Metazoa"; Str "Chordata"; Str "Mammalia"; Str "Carnivora";
         Str "Canidae"; Str "Canis"; Str "Canis lupus"];
        [Str "Metazoa"; Str "Chordata"; Str "Mammalia"; Str "Primates";
         Str "Hominidae"; Str "Homo"; Str "Homo sapiens"]] |}.

(** The frame [mammals] with the first dog twice, one after the other. *)
Definition mammals_doubled : DataFrame :=
  {| columns := rank_order;
     values :=
       [[Str "Metazoa"; Str "Chordata"; Str "Mammalia"; Str "Carnivora";
         Str "Canidae"; Str "Canis"; Str "Canis lupus"];
        [Str "Metazoa"; Str "Chordata"; Str "Mammalia"; Str "Carnivora";
         Str "Canidae"; Str "Canis"; Str "Canis lupus"];
        [Str "Metazoa"; Str "Chordata"; Str "Mammalia"; Str "Carnivora";
         Str "Canidae"; Str "Canis"; Str "Canis latrans"];
        [Str "Metazoa"; Str "Chordata"; Str "Mammalia"; Str "Primates";
         Str "Hominidae"; Str "Homo"; Str "Homo sapiens"]] |}.

(** The frame [mammals] with its records in the opposite order. *)
Definition mammals_turned : DataFrame :=
  {| columns := rank_order; values := reverse (values mammals) |}.

(** Two records that are the same, without a phylum. *)
Definition nan_twice : DataFrame :=
  {| columns := rank_order;
     values := [[Str "A"; NaN; Str "C"; Str "O"; Str "F"; Str "G"; Str "S"];
                [Str "A"; NaN; Str "C"; Str "O"; Str "F"; Str "G"; Str "S"]] |}.

(** The frame [frame_with_gaps] as pandas types it: both columns hold
    text. *)
Definition gaps_typed : TypedFrame :=
  {| frame := frame_with_gaps; dtypes := [object; object] |}.

(** The frame [one_cell], typed. *)
Definition one_cell_typed : TypedFrame :=
  {| frame := one_cell; dtypes := [object] |}.


(** The lineage of a fruit fly, shortened: its genus and its subgenus are
    both named Drosophila. *)
Definition fly_names : NCBITaxa :=
  {| get_name_translator := λ names,
       Ok (omap (λ name, match name with
                         | Str "Drosophila virilis" => Some (name, [7244%Z])
                         | _ => None
                         end) names) |}.

Definition fruit_fly : Lineages :=
  {| get_lineage := λ tax_id,
       if decide (tax_id = 7244%Z) then Ok [1; 7214; 7215; 32281; 7244]%Z
       else Err (ResolverError "not found");
     get_rank := λ lineage,
       Ok (omap (λ k : Z, (λ rank, (k, rank)) <$>
             (if decide (k = 1) then Some "no rank"
              else if decide (k = 7214) then Some "family"
              else if decide (k = 7215) then Some "genus"
              else if decide (k = 32281) then Some "subgenus"
              else if decide (k = 7244) then Some "species"
              else None)%Z) lineage);
     get_taxid_translator := λ tax_ids,
       Ok (omap (λ k : Z, (λ name, (k, name)) <$>
             (if decide (k = 1) then Some "root"
              else if decide (k = 7214) then Some "Drosophilidae"
              else if decide (k = 7215) then Some "Drosophila"
              else if decide (k = 32281) then Some "Drosophila"
              else if decide (k = 7244) then Some "Drosophila virilis"
              else None)%Z) tax_ids) |}.

(** * The imputer *)

Section Imputer.

Lemma insert_middle {A} (l1 l2 : list A) (x y : A) :
  <[length l1 := x]> (l1 ++ y :: l2) = l1 ++ x :: l2.
Proof.
  pose proof (insert_app_r l1 (y :: l2) 0 x) as H.
  by rewrite Nat.add_0_r in H.
Qed.

Lemma count_null_cons v vs :
  count_null (v :: vs) = ((if isnull v then 1 else 0) + count_null vs)%nat.
Proof.
  unfold count_null. destruct (isnull v) eqn:Hv.
  - by rewrite filter_cons_True.
  - rewrite filter_cons_False; [done|]. by rewrite Hv.
Qed.

Lemma count_null_app vs ws :
  count_null (vs ++ ws) = (count_null vs + count_null ws)%nat.
Proof. unfold count_null. by rewrite filter_app, length_app. Qed.

Lemma length_null_columns c row : length (null_columns c row) = count_null row.
Proof.
  revert c. induction row as [|v row IH]; intros c; [done|].
  rewrite count_null_cons. simpl. destruct (isnull v); simpl; by rewrite IH.
Qed.

Lemma fill_length i vs : length (fill i vs) = length vs.
Proof.
  revert i. induction vs as [|v vs IH]; intros i; [done|].
  simpl. destruct (isnull v); simpl; by rewrite IH.
Qed.

Lemma fill_app i vs ws :
  fill i (vs ++ ws) = fill i vs ++ fill (i + Z.of_nat (count_null vs)) ws.
Proof.
  revert i. induction vs as [|v vs IH]; intros i.
  - simpl. by rewrite Z.add_0_r.
  - rewrite count_null_cons. simpl. destruct (isnull v); simpl; rewrite IH; [|done].
    replace (i + 1 + Z.of_nat (count_null vs))%Z
      with (i + Z.of_nat (S (count_null vs)))%Z by lia. done.
Qed.

Lemma set_all_app ps qs i vals :
  set_all (ps ++ qs) i vals =
  set_all ps i vals ≫= set_all qs (i + Z.of_nat (length ps)).
Proof.
  revert i vals. induction ps as [|[r c] ps IH]; intros i vals.
  - simpl. by rewrite Z.add_0_r.
  - simpl. destruct (set_cell vals r c (placeholder i)) as [vals'|]; simpl; [|done].
    rewrite IH. replace (i + 1 + Z.of_nat (length ps))%Z
      with (i + Z.of_nat (S (length ps)))%Z by lia. done.
Qed.

(** The positions of one row: the cells of the row from column
    [length pre] on are scanned, the rest of the frame stays. *)

Lemma set_all_row above pre suf below i :
  set_all (map (λ c, (length above, c)) (null_columns (length pre) suf)) i
          (above ++ (pre ++ suf) :: below)
  = Some (above ++ (pre ++ fill i suf) :: below).
Proof.
  revert pre i. induction suf as [|v suf IH]; intros pre i; [done|].
  simpl. destruct (isnull v) eqn:Hv; simpl.
  - unfold set_cell. rewrite list_lookup_middle by done. simpl.
    rewrite list_lookup_middle by done. simpl.
    rewrite !insert_middle.
    specialize (IH (pre ++ [placeholder i]) (i + 1)%Z).
    rewrite length_app in IH. simpl in IH. rewrite Nat.add_1_r in IH.
    rewrite <- !(assoc_L (++)) in IH. simpl in IH. exact IH.
  - specialize (IH (pre ++ [v]) i).
    rewrite length_app in IH. simpl in IH. rewrite Nat.add_1_r in IH.
    rewrite <- !(assoc_L (++)) in IH. simpl in IH. exact IH.
Qed.

Lemma set_all_where above vals i :
  set_all (where_isnull (length above) vals) i (above ++ vals)
  = Some (above ++ fill_rows i vals).
Proof.
  revert above i. induction vals as [|row vals IH]; intros above i; [done|].
  simpl. rewrite set_all_app.
  pose proof (set_all_row above [] row vals i) as Hrow. simpl in Hrow.
  rewrite Hrow. simpl. rewrite length_map, length_null_columns.
  specialize (IH (above ++ [fill i row]) (i + Z.of_nat (count_null row))%Z).
  rewrite length_app in IH. simpl in IH. rewrite Nat.add_1_r in IH.
  rewrite <- !(assoc_L (++)) in IH. simpl in IH. exact IH.
Qed.

Lemma concat_fill_rows i vals : concat (fill_rows i vals) = fill i (concat vals).
Proof.
  revert i. induction vals as [|row vals IH]; intros i; [done|].
  simpl. by rewrite fill_app, IH.
Qed.

Lemma length_fill_rows i vals : map length (fill_rows i vals) = map length vals.
Proof.
  revert i. induction vals as [|row vals IH]; intros i; [done|].
  simpl. by rewrite fill_length, IH.
Qed.

Lemma fill_lookup i vs n v :
  vs !! n = Some v →
  fill i vs !! n =
  Some (if isnull v then placeholder (i + Z.of_nat (count_null (take n vs))) else v).
Proof.
  revert i n. induction vs as [|w vs IH]; intros i n Hn; [done|].
  destruct n as [|n]; simpl in *.
  - injection Hn as ->. destruct (isnull v); simpl; [|done].
    by rewrite Z.add_0_r.
  - rewrite count_null_cons.
    destruct (isnull w); simpl; rewrite (IH _ _ Hn); destruct (isnull v); try done.
    replace (i + 1 + Z.of_nat (count_null (take n vs)))%Z
      with (i + Z.of_nat (S (count_null (take n vs))))%Z by lia. done.
Qed.

Lemma fill_rows_lookup i vals r row :
  vals !! r = Some row →
  fill_rows i vals !! r =
  Some (fill (i + Z.of_nat (count_null (concat (take r vals)))) row).
Proof.
  revert i r. induction vals as [|row0 vals IH]; intros i r Hr; [done|].
  destruct r as [|r]; simpl in *.
  - injection Hr as ->. by rewrite Z.add_0_r.
  - rewrite (IH _ _ Hr), count_null_app.
    replace (i + Z.of_nat (count_null row0) + Z.of_nat (count_null (concat (take r vals))))%Z
      with (i + Z.of_nat (count_null row0 + count_null (concat (take r vals))))%Z by lia.
    done.
Qed.

(** ** The loop on the heap *)

Lemma impute_loop_set_all l ps i (h : gmap nat DataFrame) d :
  h !! l = Some d →
  impute_loop l ps i h =
  vals ← set_all ps i (values d);
  Some (<[l := {| columns := columns d; values := vals |}]> h).
Proof.
  revert i h d. induction ps as [|[r c] ps IH]; intros i h d Hl.
  - simpl. f_equal. symmetry. apply insert_id. rewrite Hl. by destruct d.
  - simpl. unfold iloc_set. rewrite Hl. simpl.
    destruct (set_cell (values d) r c (placeholder i)) as [vals'|]; simpl; [|done].
    rewrite (IH _ _ {| columns := columns d; values := vals' |}) by apply lookup_insert_eq.
    simpl. destruct (set_all ps (i + 1) vals'); simpl; [|done].
    by rewrite insert_insert_eq.
Qed.

Lemma impute_taxons_run (h : gmap nat DataFrame) taxon_df df :
  h !! taxon_df = Some df →
  let l1 := fresh (dom h) in
  let h1 := <[l1 := df]> h in
  let l2 := fresh (dom h1) in
  impute_taxons taxon_df h = Some (l2, <[l2 := imputed df]> h1).
Proof.
  intros Hl l1 h1 l2. unfold impute_taxons, df_copy. rewrite Hl. simpl.
  unfold df_replace. fold l1. fold h1.
  assert (H1 : h1 !! l1 = Some df) by apply lookup_insert_eq.
  rewrite H1. simpl. fold l2. rewrite lookup_insert_eq. simpl.
  erewrite impute_loop_set_all by apply lookup_insert_eq. simpl.
  pose proof (set_all_where [] (map (map (replace_cell "unknown_rank_name" PyNone)) (values df)) 1)
    as Hset.
  simpl in Hset. rewrite Hset. simpl. by rewrite insert_insert_eq.
Qed.

Lemma isnull_replace v : isnull (replace_cell "unknown_rank_name" PyNone v) = missing v.
Proof.
  unfold replace_cell, missing. case_decide as Hv.
  - by subst v.
  - rewrite bool_decide_eq_false_2 by done. by rewrite orb_false_r.
Qed.

Lemma replace_not_missing v : missing v = false → replace_cell "unknown_rank_name" PyNone v = v.
Proof.
  unfold replace_cell, missing. intros Hm. case_decide as Hv; [|done].
  subst v. done.
Qed.

Lemma count_null_replace vs :
  count_null (map (replace_cell "unknown_rank_name" PyNone) vs) = count_missing vs.
Proof.
  induction vs as [|v vs IH]; [done|].
  rewrite map_cons, count_null_cons, isnull_replace, IH.
  unfold count_missing. destruct (missing v) eqn:Hm.
  - by rewrite filter_cons_True.
  - rewrite filter_cons_False; [done|]. by rewrite Hm.
Qed.

Lemma count_missing_app vs ws :
  count_missing (vs ++ ws) = (count_missing vs + count_missing ws)%nat.
Proof. unfold count_missing. by rewrite filter_app, length_app. Qed.

Lemma count_null_replace_rows (vals : list (list cell)) :
  count_null (concat (map (map (replace_cell "unknown_rank_name" PyNone)) vals))
  = count_missing (concat vals).
Proof.
  induction vals as [|row vals IH]; [done|].
  simpl. by rewrite count_null_app, count_missing_app, count_null_replace, IH.
Qed.


Lemma count_missing_take_le vs n : (count_missing (take n vs) ≤ count_missing vs)%nat.
Proof.
  rewrite <- (take_drop n vs) at 2. rewrite count_missing_app. lia.
Qed.


(** Row-major order on positions is the order of the counts. *)



Lemma imputed_cell_at df r c v :
  cell_at df r c = Some v →
  cell_at (imputed df) r c =
  Some (if missing v
        then placeholder (1 + Z.of_nat (count_missing (scanned_before df r c)))
        else v).
Proof.
  unfold cell_at, scanned_before, imputed. simpl. intros Hc.
  destruct (values df !! r) as [row|] eqn:Hr; [simpl in Hc|done].
  erewrite fill_rows_lookup; last by rewrite list_lookup_fmap, Hr.
  simpl. erewrite fill_lookup; last by rewrite list_lookup_fmap, Hc.
  rewrite isnull_replace. destruct (missing v) eqn:Hm.
  - rewrite <- !fmap_take.
    rewrite count_missing_app, count_null_replace_rows, count_null_replace.
    do 2 f_equal. lia.
  - by rewrite replace_not_missing.
Qed.




(** C9. [impute_taxons] works on a copy: after the call the heap still
    holds, at the reference the caller passed, the very frame it held
    before, the returned reference is a new one, and no frame that existed
    before the call has changed. *)
Theorem impute_taxons_leaves_original (h : gmap nat DataFrame) (taxon_df : nat)
    (df : DataFrame) :
  h !! taxon_df = Some df →
  ∃ out h',
    impute_taxons taxon_df h = Some (out, h') ∧
    (out ∉ dom h) ∧
    h' !! taxon_df = Some df ∧
    (∀ l, l ∈ dom h → h' !! l = h !! l).
Proof.
  intros Hl. pose proof (impute_taxons_run h taxon_df df Hl) as Hrun.
  simpl in Hrun. eexists _, _. split; [exact Hrun|].
  set (l1 := fresh (dom h)) in *.
  set (l2 := fresh (dom (<[l1 := df]> h))) in *.
  assert (H1 : l1 ∉ dom h) by apply is_fresh.
  assert (H2 : l2 ∉ dom (<[l1 := df]> h)) by apply is_fresh.
  rewrite dom_insert_L in H2.
  assert (Hframe : ∀ l, l ∈ dom h →
            <[l2 := imputed df]> (<[l1 := df]> h) !! l = h !! l).
  { intros l Hin. rewrite !lookup_insert_ne; [done| |]; set_solver. }
  split; [set_solver|]. split; [|exact Hframe].
  rewrite Hframe; [done|]. by apply elem_of_dom.
Qed.

End Imputer.

Lemma impute_taxons_leaves_original_witness :
  ∃ out h',
    impute_taxons 5 {[ 5%nat := frame_with_gaps ]} = Some (out, h') ∧
    (out ∉ dom ({[ 5%nat := frame_with_gaps ]} : gmap nat DataFrame)) ∧
    h' !! 5%nat = Some frame_with_gaps ∧
    (∀ l, l ∈ dom ({[ 5%nat := frame_with_gaps ]} : gmap nat DataFrame) →
          h' !! l = ({[ 5%nat := frame_with_gaps ]} : gmap nat DataFrame) !! l).
Proof.
  apply (impute_taxons_leaves_original {[ 5%nat := frame_with_gaps ]} 5 frame_with_gaps).
  reflexivity.
Defined.

(** * The imputer on frames with dtypes *)

Lemma null_columns_spec c0 row c :
  c ∈ null_columns c0 row ↔
  ∃ v, (c0 ≤ c)%nat ∧ row !! (c - c0)%nat = Some v ∧ isnull v = true.
Proof.
  revert c0. induction row as [|w row IH]; intros c0.
  - simpl. split; [by intros ?%elem_of_nil|]. by intros (v & _ & ? & _).
  - assert (Hrest : c ∈ null_columns (S c0) row ↔
              ∃ v, (c0 < c)%nat ∧ (w :: row) !! (c - c0)%nat = Some v ∧ isnull v = true).
    { rewrite IH. split.
      - intros (v & Hle & Hv & Hn). exists v. split; [lia|]. split; [|done].
        replace (c - c0)%nat with (S (c - S c0)) by lia. done.
      - intros (v & Hlt & Hv & Hn). exists v. split; [lia|]. split; [|done].
        replace (c - c0)%nat with (S (c - S c0)) in Hv by lia. done. }
    simpl. destruct (isnull w) eqn:Hw.
    + rewrite elem_of_cons, Hrest. split.
      * intros [->|(v & Hlt & Hv & Hn)].
        -- exists w. rewrite Nat.sub_diag. done.
        -- exists v. split; [lia|done].
      * intros (v & Hle & Hv & Hn). destruct (decide (c = c0)) as [->|Hne]; [by left|].
        right. exists v. split; [lia|done].
    + rewrite Hrest. split.
      * intros (v & Hlt & Hv & Hn). exists v. split; [lia|done].
      * intros (v & Hle & Hv & Hn). exists v. split; [|done].
        destruct (decide (c = c0)) as [->|Hne]; [|lia].
        rewrite Nat.sub_diag in Hv. simpl in Hv. injection Hv as ->. congruence.
Qed.

Lemma where_isnull_spec r0 vals r c :
  (r, c) ∈ where_isnull r0 vals ↔
  ∃ row v, (r0 ≤ r)%nat ∧ vals !! (r - r0)%nat = Some row ∧
           row !! c = Some v ∧ isnull v = true.
Proof.
  revert r0. induction vals as [|row0 vals IH]; intros r0.
  - simpl. split; [by intros ?%elem_of_nil|]. by intros (row & v & _ & ? & _).
  - simpl. rewrite elem_of_app, list_elem_of_fmap, IH. split.
    + intros [(c' & [= -> ->] & Hc)|(row & v & Hle & Hrow & Hv & Hn)].
      * apply null_columns_spec in Hc as (v & _ & Hv & Hn).
        rewrite Nat.sub_0_r in Hv. exists row0, v. by rewrite Nat.sub_diag.
      * exists row, v. split; [lia|]. split; [|done].
        replace (r - r0)%nat with (S (r - S r0)) by lia. done.
    + intros (row & v & Hle & Hrow & Hv & Hn).
      destruct (decide (r = r0)) as [->|Hne].
      * left. exists c. split; [done|]. rewrite Nat.sub_diag in Hrow.
        injection Hrow as ->. apply null_columns_spec. exists v.
        rewrite Nat.sub_0_r. split; [lia|done].
      * right. exists row, v. split; [lia|]. split; [|done].
        replace (r - r0)%nat with (S (r - S r0)) in Hrow by lia. done.
Qed.

(** The positions the loop visits are the positions of the missing cells. *)
Lemma where_isnull_missing (df : DataFrame) r c :
  (r, c) ∈ where_isnull 0 (map (map (replace_cell "unknown_rank_name" PyNone)) (values df)) ↔
  ∃ v, cell_at df r c = Some v ∧ missing v = true.
Proof.
  rewrite where_isnull_spec. unfold cell_at. rewrite Nat.sub_0_r. split.
  - intros (row & v & _ & Hrow & Hv & Hn).
    apply list_lookup_fmap_Some in Hrow as (row0 & -> & Hrow0).
    apply list_lookup_fmap_Some in Hv as (v0 & -> & Hv0).
    exists v0. rewrite Hrow0. simpl. by rewrite <- isnull_replace.
  - intros (v & Hc & Hm).
    destruct (values df !! r) as [row|] eqn:Hrow; [simpl in Hc|done].
    exists (map (replace_cell "unknown_rank_name" PyNone) row),
           (replace_cell "unknown_rank_name" PyNone v).
    split; [lia|]. change (map ?f ?l) with (f <$> l).
    rewrite !list_lookup_fmap, Hrow, Hc. simpl. by rewrite isnull_replace.
Qed.

Lemma takes_text_positions (d : TypedFrame) :
  takes_text d ↔
  Forall (λ p : nat * nat, dtypes d !! p.2 ≠ Some float64)
         (where_isnull 0 (map (map (replace_cell "unknown_rank_name" PyNone))
                              (values (frame d)))).
Proof.
  rewrite Forall_forall. split.
  - intros Ht [r c] (v & Hc & Hm)%where_isnull_missing. by eapply Ht.
  - intros Hall r c v Hc Hm. apply (Hall (r, c)). apply where_isnull_missing. by exists v.
Qed.

Lemma with_values_values d vals : values (frame (with_values d vals)) = vals.
Proof. done. Qed.

Lemma with_values_twice d vals vals' :
  with_values (with_values d vals) vals' = with_values d vals'.
Proof. done. Qed.

Lemma with_values_id d : with_values d (values (frame d)) = d.
Proof. by destruct d as [[] ?]. Qed.

(** The loop where every position can take text. *)
Lemma typed_loop_returns l ps i (h : gmap nat TypedFrame) d vals :
  h !! l = Some d →
  Forall (λ p : nat * nat, dtypes d !! p.2 ≠ Some float64) ps →
  set_all ps i (values (frame d)) = Some vals →
  Typed.impute_loop l ps i h = Some (Ok tt, <[l := with_values d vals]> h).
Proof.
  revert i h d. induction ps as [|[r c] ps IH]; intros i h d Hl Hall Hset.
  - simpl in *. injection Hset as <-. rewrite with_values_id.
    by rewrite insert_id.
  - apply Forall_cons in Hall as [Hc Hall]. simpl in Hc, Hset.
    simpl. unfold Typed.iloc_set. rewrite Hl. simpl.
    change (Str ("unknown" +:+ str i)) with (placeholder i).
    destruct (set_cell (values (frame d)) r c (placeholder i)) as [vals1|]; [|done].
    simpl in Hset.
    assert (Hok : match dtypes d !! c with
                  | Some float64 => Some (Err TypeError, h)
                  | _ => Some (Ok tt, <[l := with_values d vals1]> h)
                  end = Some (Ok tt, <[l := with_values d vals1]> h)).
    { destruct (dtypes d !! c) as [[]|]; done. }
    rewrite Hok.
    rewrite (IH _ _ (with_values d vals1)); [|apply lookup_insert_eq|done|done].
    by rewrite insert_insert_eq.
Qed.


(** The frame a call fills: the copy of the copy. *)
Lemma typed_run_returns (h : gmap nat TypedFrame) taxon_df d :
  h !! taxon_df = Some d → takes_text d →
  let l1 := fresh (dom h) in
  let h1 := <[l1 := d]> h in
  let l2 := fresh (dom h1) in
  Typed.impute_taxons taxon_df h
  = Some (Ok l2, <[l2 := with_values d (values (imputed (frame d)))]> h1).
Proof.
  intros Hl Ht l1 h1 l2. unfold Typed.impute_taxons, Typed.df_copy. rewrite Hl. simpl.
  unfold Typed.df_replace. fold l1. fold h1.
  assert (H1 : h1 !! l1 = Some d) by apply lookup_insert_eq.
  rewrite H1. simpl. fold l2. rewrite lookup_insert_eq. simpl.
  set (replaced := map (map (replace_cell "unknown_rank_name" PyNone)) (values (frame d))).
  pose proof (set_all_where [] replaced 1) as Hset. simpl in Hset.
  erewrite (typed_loop_returns l2 _ 1 _ (with_values d replaced));
    [|apply lookup_insert_eq|by apply (proj1 (takes_text_positions d))|exact Hset].
  simpl. by rewrite insert_insert_eq.
Qed.


Lemma takes_text_objects (d : TypedFrame) :
  Forall (λ t, t = object) (dtypes d) → takes_text d.
Proof.
  intros Hall r c v _ _ Hc. rewrite Forall_forall in Hall.
  apply list_elem_of_lookup_2 in Hc. by apply Hall in Hc.
Qed.

Lemma takes_text_complete (d : TypedFrame) :
  (∀ r c v, cell_at (frame d) r c = Some v → missing v = false) → takes_text d.
Proof. intros Hd r c v Hv Hm. rewrite (Hd r c v Hv) in Hm. done. Qed.

(** On a frame in which the missing cells can take text, the call does to
    the cells what [impute_taxons] does on the heap of the frames without
    their dtypes. *)
Lemma typed_run_untyped (h : gmap nat TypedFrame) taxon_df d :
  h !! taxon_df = Some d → takes_text d →
  ∃ out h',
    Typed.impute_taxons taxon_df h = Some (Ok out, h') ∧
    impute_taxons taxon_df (frame <$> h) = Some (out, frame <$> h').
Proof.
  intros Hl Ht. pose proof (typed_run_returns h taxon_df d Hl Ht) as Hrun.
  simpl in Hrun. eexists _, _. split; [exact Hrun|].
  assert (Hl' : (frame <$> h) !! taxon_df = Some (frame d)) by by rewrite lookup_fmap, Hl.
  pose proof (impute_taxons_run (frame <$> h) taxon_df (frame d) Hl') as Hrun'.
  simpl in Hrun'. rewrite Hrun'. rewrite !fmap_insert, !dom_insert_L, !dom_fmap_L. done.
Qed.




(** * The monad *)

Section Monad.
Context {A B : Type}.

Lemma bind_Ok (a : A) (t : list event) (f : A → M B) :
  (Ok (a, t) : M A) ≫= f =
  match f a with
  | Err e => Err e
  | Ok (b, t2) => Ok (b, t ++ t2)
  end.
Proof. reflexivity. Qed.

Lemma bind_Err (e : exn) (f : A → M B) : (Err e : M A) ≫= f = Err e.
Proof. reflexivity. Qed.

Lemma bind_ret (a : A) (f : A → M B) : ret a ≫= f = f a.
Proof. unfold ret, mret, M_ret. rewrite bind_Ok. by destruct (f a) as [[b t]|e]. Qed.

Lemma bind_lift_Ok (a : A) (f : A → M B) : lift (Ok a) ≫= f = f a.
Proof. apply bind_ret. Qed.

Lemma bind_lift_Err (e : exn) (f : A → M B) : lift (Err e) ≫= f = Err e.
Proof. reflexivity. Qed.

Lemma bind_ext (m : M A) (f g : A → M B) :
  (∀ a, f a = g a) → m ≫= f = m ≫= g.
Proof. intros Hfg. destruct m as [[a t]|e]; [|done]. by rewrite !bind_Ok, Hfg. Qed.

Lemma bind_Ok_inv (m : M A) (f : A → M B) b t :
  m ≫= f = Ok (b, t) →
  ∃ a t1 t2, m = Ok (a, t1) ∧ f a = Ok (b, t2) ∧ t = t1 ++ t2.
Proof.
  destruct m as [[a t1]|e]; [|done]. rewrite bind_Ok.
  destruct (f a) as [[b' t2]|e] eqn:Hf; [|done].
  intros [= -> <-]. by exists a, t1, t2.
Qed.

End Monad.

Lemma bind_assoc {A B C} (m : M A) (f : A → M B) (g : B → M C) :
  (m ≫= f) ≫= g = m ≫= (λ a, f a ≫= g).
Proof.
  destruct m as [[a t]|e]; [|done]. rewrite !bind_Ok.
  destruct (f a) as [[b t2]|e]; [|done]. rewrite !bind_Ok.
  destruct (g b) as [[c t3]|e]; [|done]. by rewrite (assoc_L (++)).
Qed.

Lemma ret_Ok_inv {A} (a b : A) t : ret a = Ok (b, t) → a = b ∧ t = [].
Proof. by intros [= -> <-]. Qed.

Lemma calls_app t1 t2 : calls (t1 ++ t2) = calls t1 ++ calls t2.
Proof. unfold calls. apply omap_app. Qed.

(** * The resolver *)

Lemma getTaxIDFromNCBI_Ok ncbi taxa v t :
  getTaxIDFromNCBI taxa ncbi = Ok (v, t) →
  tax_id ncbi taxa = Ok v ∧ calls t = [[taxa]].
Proof.
  unfold getTaxIDFromNCBI, tax_id, ask.
  destruct (get_name_translator ncbi [taxa]) as [d|e]; [|done].
  rewrite bind_Ok. destruct d as [|[k [|i ids]] d]; simpl; try done.
  - by intros [= <- <-].
  - by intros [= <- <-].
Qed.

Lemma getTaxIDFromNCBI_total ncbi taxa v :
  tax_id ncbi taxa = Ok v → ∃ t, getTaxIDFromNCBI taxa ncbi = Ok (v, t).
Proof.
  unfold getTaxIDFromNCBI, tax_id, ask.
  destruct (get_name_translator ncbi [taxa]) as [d|e]; [|done].
  rewrite bind_Ok. destruct d as [|[k [|i ids]] d]; simpl; try done.
  - intros [= <-]. by eexists.
  - intros [= <-]. by eexists.
Qed.

Lemma the_id_Ok ncbi taxa v : tax_id ncbi taxa = Ok v → the_id ncbi taxa = v.
Proof. unfold the_id. by intros ->. Qed.

(** * The names emitter *)

Lemma initial_head level : level ≠ "" → str_head level = Ok (initial level).
Proof. by destruct level. Qed.

Lemma initial_initial level : initial (initial level) = initial level.
Proof. by destruct level. Qed.

Lemma initial_nonempty level : level ≠ "" → initial level ≠ "".
Proof. by destruct level. Qed.

Lemma write_cell_Ok ncbi c line t :
  write_cell ncbi c = Ok (line, t) →
  is_Ok (tax_id ncbi c.2) ∧ line = names_line_of ncbi c ∧ calls t = [[c.2]].
Proof.
  unfold write_cell, names_write_line. intros H.
  apply bind_Ok_inv in H as (id & t1 & t2 & Hid & H & ->).
  apply getTaxIDFromNCBI_Ok in Hid as [Hid Hc].
  apply bind_Ok_inv in H as (entry & t3 & t4 & He & H & ->).
  apply ret_Ok_inv in H as [<- ->].
  rewrite !calls_app, Hc. unfold names_line_of, names_entry.
  rewrite (the_id_Ok _ _ _ Hid). split; [by eexists|].
  destruct (py_ne c.2 (Str "root")).
  - apply bind_Ok_inv in He as (l0 & t5 & t6 & Hl & He & ->).
    apply ret_Ok_inv in He as [<- ->].
    destruct (initial c.1) as [|ch s] eqn:Hi; [done|].
    assert (s = "") as ->. { destruct c.1; simpl in Hi; congruence. }
    simpl in Hl. injection Hl as <- <-. done.
  - apply ret_Ok_inv in He as [<- ->]. done.
Qed.

Lemma write_cell_total ncbi c :
  c.1 ≠ "" → is_Ok (tax_id ncbi c.2) →
  ∃ t, write_cell ncbi c = Ok (names_line_of ncbi c, t).
Proof.
  intros Hne [id Hid]. unfold write_cell, names_write_line.
  destruct (getTaxIDFromNCBI_total _ _ _ Hid) as [t ->].
  rewrite bind_Ok. unfold names_line_of, names_entry. rewrite (the_id_Ok _ _ _ Hid).
  destruct (py_ne c.2 (Str "root")).
  - rewrite (initial_head (initial c.1)) by by apply initial_nonempty.
    rewrite bind_lift_Ok, bind_ret, initial_initial. by eexists.
  - rewrite bind_ret. by eexists.
Qed.

Lemma write_cells_Ok ncbi cs lines t :
  mapM (write_cell ncbi) cs = Ok (lines, t) →
  Forall (λ c, is_Ok (tax_id ncbi c.2)) cs ∧
  lines = map (names_line_of ncbi) cs ∧
  calls t = map (λ c, [c.2]) cs.
Proof.
  revert lines t. induction cs as [|c cs IH]; intros lines t H.
  - apply ret_Ok_inv in H as [<- ->]. done.
  - simpl in H. apply bind_Ok_inv in H as (line & t1 & t2 & Hc & H & ->).
    apply bind_Ok_inv in H as (lines' & t3 & t4 & Hcs & H & ->).
    apply ret_Ok_inv in H as [<- ->].
    apply write_cell_Ok in Hc as (Hid & -> & Hc).
    apply IH in Hcs as (Hids & -> & Hcs).
    rewrite !calls_app, Hc, Hcs. split; [by constructor|]. by rewrite app_nil_r.
Qed.

Lemma write_cells_total ncbi cs :
  Forall (λ c, c.1 ≠ "" ∧ is_Ok (tax_id ncbi c.2)) cs →
  ∃ t, mapM (write_cell ncbi) cs = Ok (map (names_line_of ncbi) cs, t).
Proof.
  induction 1 as [|c cs [Hne Hid] _ [t IH]]; [by eexists|].
  destruct (write_cell_total ncbi c Hne Hid) as [t1 Hc].
  simpl. rewrite Hc, bind_Ok, IH, bind_Ok. by eexists.
Qed.

Lemma bind_ret_r {A} (m : M A) : m ≫= ret = m.
Proof. destruct m as [[a t]|e]; [|done]. rewrite bind_Ok. simpl. by rewrite app_nil_r. Qed.

Lemma mapM_nil {X Y} (f : X → M Y) : mapM f [] = ret [].
Proof. reflexivity. Qed.

Lemma mapM_cons {X Y} (f : X → M Y) x xs :
  mapM f (x :: xs) = y ← f x; ys ← mapM f xs; ret (y :: ys).
Proof. reflexivity. Qed.

Lemma foldM_nil {S X} (body : S → X → M S) s : foldM body s [] = ret s.
Proof. reflexivity. Qed.

Lemma foldM_cons {S X} (body : S → X → M S) s x xs :
  foldM body s (x :: xs) = s' ← body s x; foldM body s' xs.
Proof. reflexivity. Qed.

Lemma mapM_app {X Y} (f : X → M Y) xs ys :
  mapM f (xs ++ ys) = a ← mapM f xs; b ← mapM f ys; ret (a ++ b).
Proof.
  induction xs as [|x xs IH].
  - rewrite mapM_nil, bind_ret. simpl. by rewrite bind_ret_r.
  - rewrite <- app_comm_cons, !mapM_cons, IH.
    destruct (f x) as [[y t]|e]; [|done].
    destruct (mapM f xs) as [[a t1]|e]; [|done].
    destruct (mapM f ys) as [[b t2]|e]; [|done].
    cbn. by rewrite !app_nil_r, !(assoc_L (++)).
Qed.

Lemma index_of_None label ls : index_of label ls = None ↔ label ∉ ls.
Proof.
  induction ls as [|l ls IH]; simpl.
  - split; [intros _; apply not_elem_of_nil|done].
  - case_decide as Hl.
    + subst. split; [done|]. intros []. by left.
    + rewrite fmap_None, IH, not_elem_of_cons. split; [by intros ?|by intros [_ ?]].
Qed.

Lemma series_get_Ok row label :
  label ∈ labels row → series_get row label = Ok (cell_of row label).
Proof.
  intros Hin. unfold cell_of, series_get.
  destruct (index_of label (labels row)) eqn:Hi; [done|].
  by apply index_of_None in Hi.
Qed.

Lemma series_get_Err row label :
  label ∉ labels row → series_get row label = Err (KeyError label).
Proof. intros Hin. unfold series_get. by apply index_of_None in Hin as ->. Qed.

Lemma names_first_gen ncbi first_entry (ls : list string) lines :
  Forall (λ level, level ≠ "" ∧ level ∈ labels first_entry) ls →
  foldM (λ lines level,
    l0 ← lift (str_head level);
    name ← lift (series_get first_entry level);
    line ← names_write_line ncbi l0 name;
    ret (lines ++ [line])) lines ls
  = new ← mapM (write_cell ncbi) (map (λ level, (level, cell_of first_entry level)) ls);
    ret (lines ++ new).
Proof.
  intros Hls. revert lines. induction Hls as [|l ls [Hne Hin] _ IH]; intros lines.
  - rewrite foldM_nil, fmap_nil, mapM_nil. by rewrite bind_ret, app_nil_r.
  - rewrite foldM_cons, fmap_cons, mapM_cons.
    rewrite (initial_head _ Hne), bind_lift_Ok.
    rewrite (series_get_Ok _ _ Hin), bind_lift_Ok.
    unfold write_cell at 1. cbn [fst snd].
    rewrite !bind_assoc. apply bind_ext. intros line.
    rewrite bind_ret, IH, !bind_assoc. apply bind_ext. intros new.
    by rewrite bind_ret, <- (assoc_L (++)).
Qed.

Lemma names_next_gen ncbi previous row (ls : list string) lines :
  Forall (λ level, level ≠ "" ∧ level ∈ labels row ∧ level ∈ labels previous) ls →
  foldM (λ lines level,
    a ← lift (series_get row level);
    b ← lift (series_get previous level);
    if py_ne a b
    then
      l0 ← lift (str_head level);
      name ← lift (series_get row level);
      line ← names_write_line ncbi l0 name;
      ret (lines ++ [line])
    else ret lines) lines ls
  = new ← mapM (write_cell ncbi)
            (map (λ level, (level, cell_of row level))
               (filter (λ level, py_ne (cell_of row level) (cell_of previous level) = true) ls));
    ret (lines ++ new).
Proof.
  intros Hls. revert lines. induction Hls as [|l ls (Hne & Hin & Hin') _ IH]; intros lines.
  - rewrite foldM_nil, filter_nil, fmap_nil, mapM_nil. by rewrite bind_ret, app_nil_r.
  - rewrite foldM_cons. rewrite (series_get_Ok _ _ Hin), bind_lift_Ok.
    rewrite (series_get_Ok _ _ Hin'), bind_lift_Ok.
    destruct (py_ne (cell_of row l) (cell_of previous l)) eqn:Hd.
    + rewrite filter_cons_True by done. rewrite fmap_cons, mapM_cons.
      rewrite (initial_head _ Hne), bind_lift_Ok, bind_lift_Ok.
      unfold write_cell at 1. cbn [fst snd].
      rewrite !bind_assoc. apply bind_ext. intros line.
      rewrite bind_ret, IH, !bind_assoc. apply bind_ext. intros new.
      by rewrite bind_ret, <- (assoc_L (++)).
    + rewrite filter_cons_False by by rewrite Hd.
      by rewrite bind_ret, IH.
Qed.

Lemma rank_order_nonempty : Forall (λ level, level ≠ "") rank_order.
Proof. by repeat constructor. Qed.

Lemma names_first_eq ncbi first_entry lines :
  Forall (λ level, level ∈ labels first_entry) rank_order →
  names_first ncbi first_entry lines
  = new ← mapM (write_cell ncbi) (record_cells first_entry); ret (lines ++ new).
Proof.
  intros Hin. apply names_first_gen.
  pose proof rank_order_nonempty as Hne.
  rewrite Forall_forall in Hin, Hne. apply Forall_forall. eauto.
Qed.

Lemma names_next_eq ncbi previous row lines :
  Forall (λ level, level ∈ labels previous) rank_order →
  labels row = labels previous →
  names_next ncbi previous row lines
  = new ← mapM (write_cell ncbi) (changed_cells previous row); ret (lines ++ new).
Proof.
  intros Hin Hrow. apply names_next_gen.
  pose proof rank_order_nonempty as Hne.
  rewrite Forall_forall in Hin, Hne. apply Forall_forall. intros level Hl.
  rewrite Hrow. split_and!; eauto.
Qed.

Lemma names_later_eq ncbi later previous lines :
  Forall (λ level, level ∈ labels previous) rank_order →
  Forall (λ row, labels row = labels previous) later →
  (st ← foldM (λ (st : list string * Series) row,
          lines ← names_next ncbi st.2 row st.1;
          ret (lines, row))
        (lines, previous) later;
   ret st.1)
  = new ← mapM (write_cell ncbi) (later_cells previous later);
    ret (lines ++ new).
Proof.
  intros Hp Hl. revert previous lines Hp Hl.
  induction later as [|row later IH]; intros previous lines Hp Hl.
  - rewrite foldM_nil, !bind_ret. cbn [later_cells fst]. by rewrite mapM_nil, bind_ret, app_nil_r.
  - apply Forall_cons in Hl as [Hrow Hl]. rewrite foldM_cons. cbv beta. cbn [later_cells fst snd].
    rewrite names_next_eq by done.
    rewrite mapM_app, !bind_assoc. apply bind_ext. intros a.
    rewrite !bind_ret.
    rewrite IH; [|by rewrite Hrow|by rewrite Hrow].
    rewrite !bind_assoc. apply bind_ext. intros b.
    by rewrite !bind_ret, (assoc_L (++)).
Qed.

Lemma rows_labels df : Forall (λ row, labels row = columns df) (rows df).
Proof. unfold rows. apply Forall_forall. intros row [r [-> _]]%list_elem_of_fmap. done. Qed.

(** The names emitter is one pass over the cells of [emitted_cells]. *)
Lemma create_names_dump_eq df ncbi :
  rows df ≠ [] → rank_order ⊆ columns df →
  create_names_dump df ncbi
  = lines ← mapM (write_cell ncbi) (emitted_cells df);
    ret (root_names_line :: lines).
Proof.
  intros Hrows Hcols. unfold create_names_dump, emitted_cells, iloc0.
  pose proof (rows_labels df) as Hlab.
  destruct (rows df) as [|first_entry later]; [done|].
  apply Forall_cons in Hlab as [Hfirst Hlab]. rewrite bind_lift_Ok. cbn [drop].
  assert (Hin : Forall (λ level, level ∈ labels first_entry) rank_order).
  { apply Forall_forall. intros level Hl. rewrite Hfirst. by apply Hcols. }
  rewrite names_first_eq by done.
  rewrite mapM_app, !bind_assoc. apply bind_ext. intros a.
  rewrite bind_ret. rewrite names_later_eq; [|done|].
  - rewrite !bind_assoc. apply bind_ext. intros b. by rewrite !bind_ret.
  - eapply Forall_impl; [exact Hlab|]. intros row ->. done.
Qed.

Lemma foldM_Err {S X} (body : S → X → M S) s x xs :
  x ∈ xs → (∀ s, ∃ e, body s x = Err e) → ∃ e, foldM body s xs = Err e.
Proof.
  intros Hin Hx. revert s. induction xs as [|y xs IH]; intros s.
  - by apply elem_of_nil in Hin.
  - rewrite foldM_cons. apply elem_of_cons in Hin as [<-|Hin].
    + destruct (Hx s) as [e ->]. by exists e.
    + destruct (body s y) as [[s' t]|e]; [|by exists e].
      destruct (IH Hin s') as [e He]. exists e. by rewrite bind_Ok, He.
Qed.

Lemma create_names_dump_empty df ncbi :
  values df = [] → create_names_dump df ncbi = Err IndexError.
Proof. intros Hv. unfold create_names_dump, iloc0, rows. by rewrite Hv. Qed.

Lemma create_names_dump_missing_column df ncbi level :
  values df ≠ [] → level ∈ rank_order → level ∉ columns df →
  ∃ e, create_names_dump df ncbi = Err e.
Proof.
  intros Hv Hin Hcol. unfold create_names_dump, iloc0.
  pose proof (rows_labels df) as Hlab. unfold rows in *.
  destruct (values df) as [|r vals]; [done|].
  apply Forall_cons in Hlab as [Hfirst _]. rewrite fmap_cons, bind_lift_Ok.
  set (first_entry := {| labels := columns df; cells := r |}).
  destruct (foldM_Err
    (λ lines level,
       l0 ← lift (str_head level);
       name ← lift (series_get first_entry level);
       line ← names_write_line ncbi l0 name;
       ret (lines ++ [line])) [root_names_line] level rank_order Hin) as [e He].
  - intros lines. destruct (str_head level) as [l0|e]; [|by exists e].
    rewrite bind_lift_Ok, series_get_Err by done. by eexists.
  - exists e. unfold names_first. by rewrite He.
Qed.

(** What a run of the names emitter that ends well has done. *)
Lemma create_names_dump_Ok df ncbi lines t :
  create_names_dump df ncbi = Ok (lines, t) →
  values df ≠ [] ∧ rank_order ⊆ columns df ∧
  Forall (λ c, is_Ok (tax_id ncbi c.2)) (emitted_cells df) ∧
  lines = root_names_line :: map (names_line_of ncbi) (emitted_cells df) ∧
  calls t = map (λ c, [c.2]) (emitted_cells df).
Proof.
  intros H.
  assert (Hv : values df ≠ []).
  { intros Hv. by rewrite create_names_dump_empty in H. }
  assert (Hcols : rank_order ⊆ columns df).
  { intros level Hin. destruct (decide (level ∈ columns df)) as [|Hn]; [done|].
    destruct (create_names_dump_missing_column df ncbi level Hv Hin Hn) as [e He].
    by rewrite He in H. }
  rewrite create_names_dump_eq in H; [|by unfold rows; destruct (values df)|done].
  apply bind_Ok_inv in H as (ls & t1 & t2 & Hcs & H & ->).
  apply ret_Ok_inv in H as [<- ->].
  apply write_cells_Ok in Hcs as (Hids & -> & Hc).
  by rewrite app_nil_r.
Qed.

Lemma emitted_cells_levels df :
  Forall (λ c, c.1 ∈ rank_order) (emitted_cells df).
Proof.
  assert (Hrec : ∀ row, Forall (λ c : string * cell, c.1 ∈ rank_order) (record_cells row)).
  { intros row. apply Forall_forall. intros c [l [-> Hl]]%list_elem_of_fmap. done. }
  assert (Hch : ∀ p row, Forall (λ c : string * cell, c.1 ∈ rank_order) (changed_cells p row)).
  { intros p row. apply Forall_forall. intros c [l [-> Hl]]%list_elem_of_fmap.
    by apply list_elem_of_filter in Hl as [_ Hl]. }
  unfold emitted_cells. destruct (rows df) as [|first_entry later]; [done|].
  apply Forall_app. split; [done|].
  revert first_entry. induction later as [|row later IH]; intros p; [done|].
  simpl. apply Forall_app. split; [done|apply IH].
Qed.

Lemma create_names_dump_total df ncbi :
  values df ≠ [] → rank_order ⊆ columns df →
  Forall (λ c, is_Ok (tax_id ncbi c.2)) (emitted_cells df) →
  ∃ t, create_names_dump df ncbi
       = Ok (root_names_line :: map (names_line_of ncbi) (emitted_cells df), t).
Proof.
  intros Hv Hcols Hids.
  rewrite create_names_dump_eq; [|by unfold rows; destruct (values df)|done].
  destruct (write_cells_total ncbi (emitted_cells df)) as [t Ht].
  - pose proof (emitted_cells_levels df) as Hl. pose proof rank_order_nonempty as Hne.
    rewrite Forall_forall in Hl. rewrite Forall_forall in Hne.
    rewrite Forall_forall in Hids. apply Forall_forall. intros c Hc.
    split; [apply Hne, Hl, Hc|apply Hids, Hc].
  - rewrite Ht, bind_Ok. by eexists.
Qed.

(** * The nodes emitter *)

Lemma foldM_app {S X} (body : S → X → M S) s xs ys :
  foldM body s (xs ++ ys) = s' ← foldM body s xs; foldM body s' ys.
Proof.
  revert s. induction xs as [|x xs IH]; intros s.
  - by rewrite foldM_nil, bind_ret.
  - rewrite <- app_comm_cons, !foldM_cons, bind_assoc. apply bind_ext. intros s'. apply IH.
Qed.

Lemma process_unfold ncbi st s :
  process ncbi st s =
  child_id ← getTaxIDFromNCBI s.1.1 ncbi;
  parent_id ← parent_tax_id ncbi s.1.2;
  if decide ((child_id, parent_id) ∉ st.2)
  then
    line ← nodes_write_line ncbi s.1.1 s.1.2 s.2;
    ret (st.1 ++ [line], st.2 ∪ {[ (child_id, parent_id) ]})
  else ret st.
Proof. reflexivity. Qed.

(** The walk of a record is the loop over its steps. *)
Lemma nodes_walk_eq ncbi row ranks parent st :
  Forall (λ rank, rank ∈ labels row) ranks →
  nodes_walk ncbi row ranks parent st
  = foldM (process ncbi) st (steps_of row ranks parent).
Proof.
  intros Hr. revert parent st. induction Hr as [|rank ranks Hin _ IH]; intros parent st.
  - done.
  - cbn [nodes_walk steps_of]. rewrite (series_get_Ok _ _ Hin), bind_lift_Ok.
    destruct (notna (cell_of row rank)); [|done].
    rewrite foldM_cons, process_unfold. cbn [fst snd].
    rewrite !bind_assoc. apply bind_ext. intros child_id.
    rewrite !bind_assoc. apply bind_ext. intros parent_id.
    apply bind_ext. intros st'. apply IH.
Qed.

Lemma available_ranks_columns df : Forall (λ rank, rank ∈ columns df) (available_ranks df).
Proof.
  apply Forall_forall. intros rank Hin. unfold available_ranks in Hin.
  by apply list_elem_of_filter in Hin as [Hin _].
Qed.

Lemma available_ranks_order df : available_ranks df ⊆ rank_order.
Proof.
  intros rank Hin. unfold available_ranks in Hin.
  by apply list_elem_of_filter in Hin as [_ Hin].
Qed.

Lemma nodes_rows_eq ncbi (ranks : list string) (rs : list Series) st :
  Forall (λ row, Forall (λ rank, rank ∈ labels row) ranks) rs →
  foldM (λ st row, nodes_walk ncbi row ranks (Str "root") st) st rs
  = foldM (process ncbi) st (flat_map (λ row, steps_of row ranks (Str "root")) rs).
Proof.
  intros Hrs. revert st. induction Hrs as [|row rs Hrow _ IH]; intros st; [done|].
  rewrite foldM_cons. cbn [flat_map]. rewrite foldM_app, nodes_walk_eq by done.
  apply bind_ext. intros st'. apply IH.
Qed.

(** The nodes emitter is one loop over the steps of [all_steps]. *)
Lemma create_nodes_dump_eq df ncbi :
  create_nodes_dump df ncbi
  = st ← foldM (process ncbi) ([root_nodes_line], {[ root_pair ]}) (all_steps df);
    ret st.1.
Proof.
  unfold create_nodes_dump, all_steps. rewrite nodes_rows_eq; [done|].
  pose proof (rows_labels df) as Hlab. eapply Forall_impl; [exact Hlab|].
  intros row ->. apply available_ranks_columns.
Qed.

Lemma parent_tax_id_Ok ncbi parent v t :
  parent_tax_id ncbi parent = Ok (v, t) →
  the_parent_id ncbi parent = v ∧
  (py_ne parent (Str "root") = true → is_Ok (tax_id ncbi parent)) ∧
  calls t = (if py_ne parent (Str "root") then [[parent]] else []).
Proof.
  unfold parent_tax_id, the_parent_id. destruct (py_ne parent (Str "root")).
  - intros [Hid Hc]%getTaxIDFromNCBI_Ok. rewrite (the_id_Ok _ _ _ Hid).
    split; [done|]. split; [by eexists|done].
  - intros [<- ->]%ret_Ok_inv. done.
Qed.

Lemma parent_tax_id_total ncbi parent :
  (py_ne parent (Str "root") = true → is_Ok (tax_id ncbi parent)) →
  ∃ t, parent_tax_id ncbi parent = Ok (the_parent_id ncbi parent, t).
Proof.
  unfold parent_tax_id, the_parent_id. destruct (py_ne parent (Str "root")).
  - intros [v Hv]; [done|]. rewrite (the_id_Ok _ _ _ Hv).
    by apply getTaxIDFromNCBI_total.
  - intros _. by eexists.
Qed.

Lemma nodes_write_line_Ok ncbi s line t :
  nodes_write_line ncbi s.1.1 s.1.2 s.2 = Ok (line, t) →
  line = nodes_line_of ncbi s ∧ calls t = step_calls s.
Proof.
  unfold nodes_write_line. intros H.
  apply bind_Ok_inv in H as (cid & t1 & t2 & Hc & H & ->).
  apply bind_Ok_inv in H as (pid & t3 & t4 & Hp & H & ->).
  apply ret_Ok_inv in H as [<- ->].
  apply getTaxIDFromNCBI_Ok in Hc as [Hc Hcc].
  apply parent_tax_id_Ok in Hp as (Hp & _ & Hpc).
  unfold nodes_line_of, id_pair, formatted, step_calls. cbn [fst snd].
  rewrite (the_id_Ok _ _ _ Hc), Hp, !calls_app, Hcc, Hpc. by rewrite app_nil_r.
Qed.

Lemma nodes_write_line_total ncbi s :
  resolvable ncbi s →
  ∃ t, nodes_write_line ncbi s.1.1 s.1.2 s.2 = Ok (nodes_line_of ncbi s, t).
Proof.
  intros [[cid Hc] Hp]. unfold nodes_write_line.
  destruct (getTaxIDFromNCBI_total _ _ _ Hc) as [t1 ->].
  destruct (parent_tax_id_total _ _ Hp) as [t2 Hp'].
  rewrite bind_Ok, Hp', bind_Ok. unfold nodes_line_of, id_pair, formatted. cbn [fst snd].
  rewrite (the_id_Ok _ _ _ Hc). by eexists.
Qed.

Lemma process_Ok ncbi st s st' t :
  process ncbi st s = Ok (st', t) →
  resolvable ncbi s ∧
  st' = (if decide (pair_of ncbi s ∈ st.2) then st
         else (st.1 ++ [nodes_line_of ncbi s], st.2 ∪ {[ pair_of ncbi s ]})) ∧
  calls t = step_calls s ++
            (if decide (pair_of ncbi s ∈ st.2) then [] else step_calls s).
Proof.
  unfold process. intros H.
  apply bind_Ok_inv in H as (cid & t1 & t2 & Hc & H & ->).
  apply bind_Ok_inv in H as (pid & t3 & t4 & Hp & H & ->).
  apply getTaxIDFromNCBI_Ok in Hc as [Hc Hcc].
  apply parent_tax_id_Ok in Hp as (Hp & Hpr & Hpc).
  assert (Hpair : pair_of ncbi s = (cid, pid)).
  { unfold pair_of. by rewrite (the_id_Ok _ _ _ Hc), Hp. }
  rewrite Hpair, !calls_app, Hcc, Hpc.
  split; [split; [by eexists|done]|].
  unfold step_calls. destruct (decide ((cid, pid) ∉ st.2)) as [Hn|Hn].
  - rewrite decide_False by done.
    apply bind_Ok_inv in H as (line & t5 & t6 & Hl & H & ->).
    apply ret_Ok_inv in H as [<- ->].
    apply nodes_write_line_Ok in Hl as [-> Hlc].
    rewrite calls_app, Hlc. unfold step_calls. split; [done|].
    rewrite decide_False by done. simpl. by rewrite app_nil_r.
  - apply ret_Ok_inv in H as [<- ->].
    destruct (decide ((cid, pid) ∈ st.2)) as [Hin|Hnin]; [|by destruct Hn].
    simpl. by rewrite !app_nil_r.
Qed.

Lemma process_total ncbi st s :
  resolvable ncbi s → ∃ st' t, process ncbi st s = Ok (st', t).
Proof.
  intros Hs. pose proof Hs as [[cid Hc] Hp]. unfold process.
  destruct (getTaxIDFromNCBI_total _ _ _ Hc) as [t1 ->].
  destruct (parent_tax_id_total _ _ Hp) as [t2 Hp'].
  rewrite bind_Ok, Hp', bind_Ok.
  destruct (decide ((cid, the_parent_id ncbi s.1.2) ∉ st.2)).
  - destruct (nodes_write_line_total _ _ Hs) as [t3 ->]. rewrite bind_Ok. by eexists _, _.
  - by eexists _, _.
Qed.

Lemma process_all_Ok ncbi steps st st' t :
  foldM (process ncbi) st steps = Ok (st', t) →
  Forall (resolvable ncbi) steps ∧
  st'.1 = st.1 ++ map (nodes_line_of ncbi) (fresh_steps ncbi st.2 steps) ∧
  length (calls t) =
    (length (flat_map step_calls steps) +
     length (flat_map step_calls (fresh_steps ncbi st.2 steps)))%nat.
Proof.
  revert st t. induction steps as [|s steps IH]; intros st t H.
  - apply ret_Ok_inv in H as [<- ->]. by rewrite app_nil_r.
  - rewrite foldM_cons in H. apply bind_Ok_inv in H as (st1 & t1 & t2 & Hs & H & ->).
    apply process_Ok in Hs as (Hres & -> & Hc).
    apply IH in H as (Hall & Hl & Hn).
    split; [by constructor|]. rewrite calls_app, !length_app, Hc, Hn.
    cbn [fresh_steps flat_map]. destruct (decide (pair_of ncbi s ∈ st.2)).
    + split; [done|]. rewrite !length_app. simpl. lia.
    + cbn [fst snd] in *. split.
      * rewrite Hl, <- (assoc_L (++)). done.
      * cbn [flat_map]. rewrite !length_app. lia.
Qed.

Lemma process_all_total ncbi steps st :
  Forall (resolvable ncbi) steps → ∃ st' t, foldM (process ncbi) st steps = Ok (st', t).
Proof.
  intros Hall. revert st. induction Hall as [|s steps Hs _ IH]; intros st.
  - by eexists _, _.
  - destruct (process_total ncbi st s Hs) as (st1 & t1 & H1).
    destruct (IH st1) as (st2 & t2 & H2).
    rewrite foldM_cons, H1, bind_Ok, H2. by eexists _, _.
Qed.

(** What a run of the nodes emitter that ends well has done. *)
Lemma create_nodes_dump_Ok df ncbi lines t :
  create_nodes_dump df ncbi = Ok (lines, t) →
  Forall (resolvable ncbi) (all_steps df) ∧
  lines = root_nodes_line :: map (nodes_line_of ncbi) (written_steps df ncbi) ∧
  length (calls t) =
    (length (flat_map step_calls (all_steps df)) +
     length (flat_map step_calls (written_steps df ncbi)))%nat.
Proof.
  rewrite create_nodes_dump_eq. intros H.
  apply bind_Ok_inv in H as (st & t1 & t2 & Hst & H & ->).
  apply ret_Ok_inv in H as [<- ->].
  apply process_all_Ok in Hst as (Hall & Hl & Hn).
  rewrite app_nil_r. done.
Qed.

Lemma create_nodes_dump_total df ncbi :
  Forall (resolvable ncbi) (all_steps df) →
  ∃ t, create_nodes_dump df ncbi
       = Ok (root_nodes_line :: map (nodes_line_of ncbi) (written_steps df ncbi), t).
Proof.
  intros Hall. rewrite create_nodes_dump_eq.
  destruct (process_all_total ncbi (all_steps df) ([root_nodes_line], {[ root_pair ]}) Hall)
    as (st & t & Hst).
  rewrite Hst, bind_Ok. apply process_all_Ok in Hst as (_ & Hl & _).
  rewrite Hl. by eexists.
Qed.

(** * Text *)

Lemma chars_app s1 s2 : chars (s1 +:+ s2) = chars s1 ++ chars s2.
Proof.
  induction s1 as [|c s1 IH]; [done|].
  change (chars (String c (s1 +:+ s2)) = chars (String c s1) ++ chars s2).
  unfold chars in *. simpl. by rewrite IH.
Qed.

Lemma chars_inj s1 s2 : chars s1 = chars s2 → s1 = s2.
Proof.
  intros H. rewrite <- (string_of_list_ascii_of_string s1).
  rewrite <- (string_of_list_ascii_of_string s2). unfold chars in H. by rewrite H.
Qed.

Lemma chars_names_line id entry :
  chars (names_line id entry)
  = chars id ++ chars SEP ++ chars entry ++ chars names_tail.
Proof. unfold names_line. by rewrite !chars_app. Qed.

Lemma chars_nodes_line cid pid rank :
  chars (nodes_line cid pid rank)
  = chars cid ++ chars SEP ++ chars pid ++ chars SEP ++ chars rank
    ++ chars (TAB +:+ "|" +:+ NL).
Proof. unfold nodes_line. by rewrite !chars_app. Qed.

(** The root line of the names stream has no underscore; a line with a
    rank prefix in its label has two. *)
Lemma names_line_prefixed_not_root id l0 name :
  names_line id (l0 +:+ "__" +:+ name) ≠ root_names_line.
Proof.
  intros H. apply (f_equal chars) in H.
  assert (Hin : "_"%char ∈ chars (names_line id (l0 +:+ "__" +:+ name))).
  { rewrite chars_names_line, !chars_app. rewrite !elem_of_app.
    right. right. left. right. left. by left. }
  rewrite H in Hin. revert Hin. by apply (bool_decide_unpack _).
Qed.

(** Every rank has a letter that the root line of the nodes stream does
    not have. *)
Lemma nodes_line_ranked_not_root cid pid rank :
  rank ∈ rank_order → nodes_line cid pid (formatted rank) ≠ root_nodes_line.
Proof.
  intros Hrank H. apply (f_equal chars) in H.
  assert (∃ c, c ∈ chars (formatted rank) ∧ c ∉ chars root_nodes_line) as (c & Hc & Hn).
  { unfold rank_order in Hrank.
    repeat (apply elem_of_cons in Hrank as [->|Hrank];
      [first
        [ exists "i"%char; split; by apply (bool_decide_unpack _)
        | exists "p"%char; split; by apply (bool_decide_unpack _)
        | exists "c"%char; split; by apply (bool_decide_unpack _)
        | exists "d"%char; split; by apply (bool_decide_unpack _)
        | exists "f"%char; split; by apply (bool_decide_unpack _)
        | exists "g"%char; split; by apply (bool_decide_unpack _)
        | exists "s"%char; split; by apply (bool_decide_unpack _) ]|]).
    by apply elem_of_nil in Hrank. }
  apply Hn. rewrite <- H, chars_nodes_line, !elem_of_app. auto 10.
Qed.

(** * Facts about cells and steps *)

Lemma py_ne_false a b : py_ne a b = false → a = b.
Proof.
  destruct a, b; simpl; try done.
  intros H%negb_false_iff. by apply bool_decide_eq_true in H as ->.
Qed.

Lemma py_ne_Str s t : py_ne (Str s) (Str t) = true ↔ s ≠ t.
Proof. simpl. by rewrite negb_true_iff, bool_decide_eq_false. Qed.

Lemma py_ne_root name : name ≠ Str "root" → py_ne name (Str "root") = true.
Proof. destruct name; try done. intros H. apply py_ne_Str. congruence. Qed.

Lemma notna_Str v : notna v = true → ∃ s, v = Str s.
Proof. destruct v; try done. by eexists. Qed.

Lemma the_id_Str ncbi s : ∃ x, the_id ncbi (Str s) = Str x.
Proof.
  unfold the_id, tax_id.
  destruct (get_name_translator ncbi [Str s]) as [[|[k [|i ids]] d]|e]; by eexists.
Qed.

Lemma the_parent_id_Str ncbi s : ∃ x, the_parent_id ncbi (Str s) = Str x.
Proof.
  unfold the_parent_id. destruct (py_ne (Str s) (Str "root")); [|by eexists].
  apply the_id_Str.
Qed.

Lemma steps_of_spec row ranks parent s :
  s ∈ steps_of row ranks parent →
  s.2 ∈ ranks ∧ s.1.1 = cell_of row s.2 ∧ notna s.1.1 = true ∧
  (s.1.2 = parent ∨
   ∃ rank, rank ∈ ranks ∧ s.1.2 = cell_of row rank ∧ notna (cell_of row rank) = true).
Proof.
  revert parent. induction ranks as [|rank ranks IH]; intros parent Hs.
  - by apply elem_of_nil in Hs.
  - cbn [steps_of] in Hs. destruct (notna (cell_of row rank)) eqn:Hn.
    + apply elem_of_cons in Hs as [->|Hs].
      * simpl. split_and!; [by left|done|done|by left].
      * apply IH in Hs as (Hr & Hc & Hna & Hp). split_and!; [by right|done|done|].
        right. destruct Hp as [->|(rank' & Hin & -> & Hn')].
        -- exists rank. split_and!; [by left|done|done].
        -- exists rank'. split_and!; [by right|done|done].
    + by apply elem_of_nil in Hs.
Qed.

Lemma all_steps_spec df s :
  s ∈ all_steps df →
  ∃ row, row ∈ rows df ∧ s.2 ∈ available_ranks df ∧
    s.1.1 = cell_of row s.2 ∧ notna s.1.1 = true ∧
    (s.1.2 = Str "root" ∨
     ∃ rank, rank ∈ available_ranks df ∧ s.1.2 = cell_of row rank ∧
             notna (cell_of row rank) = true).
Proof.
  unfold all_steps. intros (row & Hrow & Hs)%list_elem_of_In%in_flat_map.
  apply list_elem_of_In in Hrow, Hs. exists row. split; [done|].
  by apply steps_of_spec.
Qed.

Lemma pair_of_text df ncbi s :
  s ∈ all_steps df →
  pair_of ncbi s = (Str (id_pair ncbi s).1, Str (id_pair ncbi s).2).
Proof.
  intros (row & _ & _ & _ & [c Hc]%notna_Str & Hp)%all_steps_spec.
  assert (∃ p, s.1.2 = Str p) as [p Hp'].
  { destruct Hp as [->|(rank & _ & -> & Hn%notna_Str)]; [by eexists|done]. }
  unfold pair_of, id_pair. rewrite Hc, Hp'. simpl.
  destruct (the_id_Str ncbi c) as [x ->]. by destruct (the_parent_id_Str ncbi p) as [y ->].
Qed.

(** * Facts about [fresh_steps] *)

Lemma fresh_steps_sub ncbi W steps s : s ∈ fresh_steps ncbi W steps → s ∈ steps.
Proof.
  revert W. induction steps as [|s0 steps IH]; intros W Hs; [done|].
  cbn [fresh_steps] in Hs. destruct (decide (pair_of ncbi s0 ∈ W)).
  - right. by eapply IH.
  - apply elem_of_cons in Hs as [->|Hs]; [by left|right; by eapply IH].
Qed.

Lemma fresh_steps_new ncbi W steps s :
  s ∈ fresh_steps ncbi W steps → pair_of ncbi s ∉ W.
Proof.
  revert W. induction steps as [|s0 steps IH]; intros W Hs.
  - by apply elem_of_nil in Hs.
  - cbn [fresh_steps] in Hs. destruct (decide (pair_of ncbi s0 ∈ W)).
    + by eapply IH.
    + apply elem_of_cons in Hs as [->|Hs]; [done|].
      apply IH in Hs. intros Hw. apply Hs. by apply elem_of_union_l.
Qed.

Lemma fresh_steps_NoDup ncbi W steps :
  NoDup (map (pair_of ncbi) (fresh_steps ncbi W steps)).
Proof.
  revert W. induction steps as [|s0 steps IH]; intros W; [constructor|].
  cbn [fresh_steps]. destruct (decide (pair_of ncbi s0 ∈ W)); [apply IH|].
  rewrite map_cons. constructor; [|apply IH].
  intros Hin. apply list_elem_of_fmap in Hin as (s & Heq & Hs).
  apply fresh_steps_new in Hs. apply Hs. rewrite Heq.
  apply elem_of_union_r. by apply elem_of_singleton.
Qed.

Lemma fresh_steps_cover ncbi W steps s :
  s ∈ steps →
  pair_of ncbi s ∈ W ∨ pair_of ncbi s ∈ map (pair_of ncbi) (fresh_steps ncbi W steps).
Proof.
  revert W. induction steps as [|s0 steps IH]; intros W Hs.
  - by apply elem_of_nil in Hs.
  - cbn [fresh_steps]. destruct (decide (pair_of ncbi s0 ∈ W)) as [Hin|Hin].
    + apply elem_of_cons in Hs as [->|Hs]; [by left|by apply IH].
    + rewrite map_cons. apply elem_of_cons in Hs as [->|Hs]; [right; by left|].
      destruct (IH (W ∪ {[pair_of ncbi s0]}) Hs) as [Hw|Hf]; [|right; by right].
      apply elem_of_union in Hw as [Hw|Hw%elem_of_singleton]; [by left|].
      right. rewrite Hw. by left.
Qed.

Lemma fresh_steps_length ncbi W steps :
  (length (fresh_steps ncbi W steps) ≤ length steps)%nat.
Proof.
  revert W. induction steps as [|s0 steps IH]; intros W; [done|].
  cbn [fresh_steps]. destruct (decide (pair_of ncbi s0 ∈ W)); simpl.
  - specialize (IH W). lia.
  - specialize (IH (W ∪ {[pair_of ncbi s0]})). lia.
Qed.

Lemma emitted_cells_from_rows df c :
  c ∈ emitted_cells df →
  ∃ row, row ∈ rows df ∧ c.1 ∈ rank_order ∧ c.2 = cell_of row c.1.
Proof.
  assert (Hrec : ∀ row c, c ∈ record_cells row → c.1 ∈ rank_order ∧ c.2 = cell_of row c.1).
  { intros row c' [l [-> Hl]]%list_elem_of_fmap. done. }
  assert (Hch : ∀ p row c, c ∈ changed_cells p row → c.1 ∈ rank_order ∧ c.2 = cell_of row c.1).
  { intros p row c' [l [-> Hl]]%list_elem_of_fmap.
    by apply list_elem_of_filter in Hl as [_ Hl]. }
  unfold emitted_cells. destruct (rows df) as [|first_entry later].
  { intros H. by apply elem_of_nil in H. }
  intros [Hc|Hc]%elem_of_app.
  - exists first_entry. split; [by left|by apply Hrec].
  - cut (∃ row, row ∈ later ∧ c.1 ∈ rank_order ∧ c.2 = cell_of row c.1).
    { intros (row & Hrow & H). exists row. split; [by right|done]. }
    revert first_entry Hc. induction later as [|row later IH]; intros p Hc.
    + by apply elem_of_nil in Hc.
    + cbn [later_cells] in Hc. apply elem_of_app in Hc as [Hc|Hc].
      * exists row. split; [by left|by eapply Hch].
      * destruct (IH _ Hc) as (row' & Hrow' & H). exists row'. split; [by right|done].
Qed.

(** * The claims about the two streams *)

(** C2. In a nodes stream the lines are the root line and one line for each
    step that gets one; the (child identifier, parent identifier) pairs on
    these lines are pairwise different; every line but the first is the
    line of a step of some record; and the pair of every step of every
    record, whichever record or rank comes to it, is on one of the lines.
    So a pair that two steps share is on exactly one line. *)
Theorem nodes_dump_pairs_once (df : DataFrame) (ncbi : NCBITaxa)
    (lines : list string) (t : list event) :
  create_nodes_dump df ncbi = Ok (lines, t) →
  lines = root_nodes_line ::
          map (λ s, nodes_line (id_pair ncbi s).1 (id_pair ncbi s).2 (formatted s.2))
              (written_steps df ncbi) ∧
  NoDup (("1", "1") :: map (id_pair ncbi) (written_steps df ncbi)) ∧
  (∀ s, s ∈ written_steps df ncbi → s ∈ all_steps df) ∧
  (∀ s, s ∈ all_steps df →
        id_pair ncbi s ∈ ("1", "1") :: map (id_pair ncbi) (written_steps df ncbi)).
Proof.
  intros (_ & -> & _)%create_nodes_dump_Ok. split; [done|].
  assert (Hsub : ∀ s, s ∈ written_steps df ncbi → s ∈ all_steps df).
  { intros s. apply fresh_steps_sub. }
  assert (Htext : map (pair_of ncbi) (written_steps df ncbi)
                  = map (λ p : string * string, (Str p.1, Str p.2))
                        (map (id_pair ncbi) (written_steps df ncbi))).
  { rewrite <- list_fmap_compose. apply list_fmap_ext. intros i s Hs. simpl.
    apply (pair_of_text df), Hsub. by eapply list_elem_of_lookup_2. }
  split_and!; [|done|].
  - apply (NoDup_fmap_1 (λ p : string * string, (Str p.1, Str p.2))).
    rewrite fmap_cons.
    change (NoDup (root_pair :: map (λ p : string * string, (Str p.1, Str p.2))
                                    (map (id_pair ncbi) (written_steps df ncbi)))).
    rewrite <- Htext. constructor; [|apply fresh_steps_NoDup].
    intros (s & Heq & Hs%fresh_steps_new)%list_elem_of_fmap.
    apply Hs. rewrite <- Heq. by apply elem_of_singleton.
  - intros s Hs.
    destruct (fresh_steps_cover ncbi {[ root_pair ]} (all_steps df) s Hs) as [Hr|Hw].
    + apply elem_of_singleton in Hr. apply elem_of_cons. left.
      rewrite (pair_of_text df ncbi s Hs) in Hr. unfold root_pair in Hr.
      destruct (id_pair ncbi s) as [a b]. cbn [fst snd] in Hr. congruence.
    + apply elem_of_cons. right. fold (written_steps df ncbi) in Hw. rewrite Htext in Hw.
      apply list_elem_of_fmap in Hw as (p & Heq & Hp).
      rewrite (pair_of_text df ncbi s Hs) in Heq.
      destruct (id_pair ncbi s) as [a b]. destruct p as [a' b'].
      cbn [fst snd] in Heq. by replace (a, b) with (a', b') by congruence.
Qed.

(** C3, as the code has it. A names stream, whenever one is written,
    starts with the root line, and no other line of it is the root line
    unless a rank cell of the frame holds the name [root]; a nodes stream,
    whenever one is written, starts with the root line, and no other line
    of it is the root line. *)
Theorem root_lines_first (df : DataFrame) (ncbi : NCBITaxa) :
  (∀ lines t, create_names_dump df ncbi = Ok (lines, t) →
     ∃ rest, lines = root_names_line :: rest ∧
       ((∀ row level, row ∈ rows df → level ∈ rank_order →
                      cell_of row level ≠ Str "root") →
        root_names_line ∉ rest)) ∧
  (∀ lines t, create_nodes_dump df ncbi = Ok (lines, t) →
     ∃ rest, lines = root_nodes_line :: rest ∧ root_nodes_line ∉ rest).
Proof.
  split.
  - intros lines t (_ & _ & _ & -> & _)%create_names_dump_Ok.
    eexists. split; [done|]. intros Hroot Hin.
    apply list_elem_of_fmap in Hin as (c & Heq & Hc).
    apply emitted_cells_from_rows in Hc as (row & Hrow & Hl & Hv).
    unfold names_line_of, names_entry in Heq.
    rewrite py_ne_root in Heq by (rewrite Hv; by apply Hroot).
    symmetry in Heq. by apply names_line_prefixed_not_root in Heq.
  - intros lines t (_ & -> & _)%create_nodes_dump_Ok.
    eexists. split; [done|]. intros Hin.
    apply list_elem_of_fmap in Hin as (s & Heq & Hs).
    apply fresh_steps_sub, all_steps_spec in Hs as (row & _ & Hr & _).
    apply available_ranks_order in Hr.
    symmetry in Heq. by apply nodes_line_ranked_not_root in Heq.
Qed.

(** C3 fails as it is stated: on a frame without records the names emitter
    raises [IndexError] and writes no stream, so no first line either; and
    on a frame with a cell named [root] that the resolver maps to 1, the
    root line stands in the names stream twice. *)
Lemma root_lines_first_counterexample :
  create_names_dump no_records knows_some = Err IndexError ∧
  ∃ t, create_names_dump root_named knows_some
       = Ok ([root_names_line; root_names_line;
              names_line "P" "p__P"; names_line "C" "c__C"; names_line "O" "o__O";
              names_line "F" "f__F"; names_line "G" "g__G"; names_line "S" "s__S"], t).
Proof. split; [reflexivity|]. eexists. vm_compute. reflexivity. Qed.

(** Every rank cell of every record has a names line, its own or the one
    of an equal cell above it. *)
Lemma later_cells_cover previous later row level :
  level ∈ rank_order → row ∈ previous :: later →
  cell_of row level = cell_of previous level ∨
  (level, cell_of row level) ∈ later_cells previous later.
Proof.
  intros Hl. revert previous. induction later as [|r later IH]; intros previous Hrow.
  - apply elem_of_cons in Hrow as [->|Hrow]; [by left|by apply elem_of_nil in Hrow].
  - apply elem_of_cons in Hrow as [->|Hrow]; [by left|].
    cbn [later_cells]. rewrite elem_of_app.
    assert (Hr : cell_of r level = cell_of previous level ∨
                 (level, cell_of r level) ∈ changed_cells previous r).
    { destruct (py_ne (cell_of r level) (cell_of previous level)) eqn:Hd.
      - right. unfold changed_cells. apply list_elem_of_fmap. exists level.
        split; [done|]. by apply list_elem_of_filter.
      - left. by apply py_ne_false. }
    destruct (IH r Hrow) as [Heq|Hin]; [|by right; right].
    rewrite Heq. destruct Hr as [Hr|Hr]; [by left|by right; left].
Qed.

Lemma emitted_cells_cover df row level :
  row ∈ rows df → level ∈ rank_order → (level, cell_of row level) ∈ emitted_cells df.
Proof.
  unfold emitted_cells. intros Hrow Hl.
  destruct (rows df) as [|first_entry later]; [by apply elem_of_nil in Hrow|].
  apply elem_of_app.
  destruct (later_cells_cover first_entry later row level Hl Hrow) as [Heq|Hin]; [|by right].
  left. rewrite Heq. unfold record_cells. apply list_elem_of_fmap. by exists level.
Qed.

(** C1, as the code has it. When both streams are written, every child
    identifier and every parent identifier on a line of the nodes stream is
    the identifier of at least one line of the names stream. *)
Theorem nodes_ids_have_names (df : DataFrame) (ncbi : NCBITaxa)
    (names nodes : list string) (t1 t2 : list event) :
  create_names_dump df ncbi = Ok (names, t1) →
  create_nodes_dump df ncbi = Ok (nodes, t2) →
  nodes = nodes_line "1" "1" "no rank" ::
          map (λ s, nodes_line (id_pair ncbi s).1 (id_pair ncbi s).2 (formatted s.2))
              (written_steps df ncbi) ∧
  (∃ entry, names_line "1" entry ∈ names) ∧
  (∀ s, s ∈ written_steps df ncbi →
     (∃ entry, names_line (id_pair ncbi s).1 entry ∈ names) ∧
     (∃ entry, names_line (id_pair ncbi s).2 entry ∈ names)).
Proof.
  intros (_ & _ & _ & -> & _)%create_names_dump_Ok (_ & -> & _)%create_nodes_dump_Ok.
  split; [done|].
  assert (Hroot : ∃ entry, names_line "1" entry
            ∈ root_names_line :: map (names_line_of ncbi) (emitted_cells df)).
  { exists "root". by left. }
  assert (Hcell : ∀ row level, row ∈ rows df → level ∈ rank_order →
            ∃ entry, names_line (py_str (the_id ncbi (cell_of row level))) entry
              ∈ root_names_line :: map (names_line_of ncbi) (emitted_cells df)).
  { intros row level Hrow Hl. eexists. right.
    apply list_elem_of_fmap. exists (level, cell_of row level).
    split; [reflexivity|by apply emitted_cells_cover]. }
  split; [done|]. intros s Hs.
  apply fresh_steps_sub, all_steps_spec in Hs as (row & Hrow & Hr & Hc & _ & Hp).
  unfold id_pair. cbn [fst snd]. split.
  - rewrite Hc. apply Hcell; [done|by apply (available_ranks_order df)].
  - unfold the_parent_id. destruct (py_ne s.1.2 (Str "root")) eqn:Hne; [|done].
    destruct Hp as [Hp|(rank & Hin & -> & _)].
    + by rewrite Hp in Hne.
    + apply Hcell; [done|by apply (available_ranks_order df)].
Qed.

(** C1 fails as it is stated: in the sorted frame [genus_twice] the genus
    G is the child of two lines of the nodes stream, and the names stream
    has two lines with the identifier G, the seventh and the thirteenth. *)
Lemma nodes_ids_have_names_counterexample :
  ∃ names nodes t1 t2,
    create_names_dump genus_twice knows_nothing = Ok (names, t1) ∧
    create_nodes_dump genus_twice knows_nothing = Ok (nodes, t2) ∧
    nodes_line "G" "F1" "genus" ∈ nodes ∧
    names !! 6%nat = Some (names_line "G" "g__G") ∧
    names !! 12%nat = Some (names_line "G" "g__G").
Proof.
  eexists _, _, _, _. split; [vm_compute; reflexivity|].
  split; [vm_compute; reflexivity|].
  split; [|split; reflexivity].
  by apply (bool_decide_unpack _).
Qed.

Lemma later_cells_zip previous later :
  later_cells previous later
  = concat (zip_with changed_cells (previous :: later) later).
Proof.
  revert previous. induction later as [|row later IH]; intros previous; [done|].
  cbn [later_cells zip_with concat]. by rewrite IH.
Qed.

Lemma changed_cells_spec previous row level :
  (level, cell_of row level) ∈ changed_cells previous row ↔
  level ∈ rank_order ∧ py_ne (cell_of row level) (cell_of previous level) = true.
Proof.
  unfold changed_cells. rewrite list_elem_of_fmap. split.
  - intros (l & [= <-] & [Hd Hl]%list_elem_of_filter). done.
  - intros [Hl Hd]. exists level. split; [done|]. by apply list_elem_of_filter.
Qed.

Lemma py_ne_missing_or_different a b :
  a ≠ PyNone → (py_ne a b = true ↔ isnull a = true ∨ a ≠ b).
Proof.
  intros Ha. destruct a as [s| |], b as [s'| |]; simpl; try done;
    try (split; [intros _; by right|done]);
    try (split; [intros _; by left|done]).
  rewrite negb_true_iff, bool_decide_eq_false. split.
  - intros Hs. right. congruence.
  - intros [?|Hs]; [done|]. congruence.
Qed.

Lemma filter_ext_in {A} (P Q : A → Prop) `{∀ x, Decision (P x)} `{∀ x, Decision (Q x)}
    (l : list A) :
  (∀ x, x ∈ l → P x ↔ Q x) → filter P l = filter Q l.
Proof.
  induction l as [|x l IH]; intros Hl; [done|].
  assert (Hx : P x ↔ Q x) by (apply Hl; by left).
  assert (Hrest : filter P l = filter Q l) by (apply IH; intros y Hy; apply Hl; by right).
  destruct (decide (P x)) as [HP|HP].
  - rewrite !filter_cons_True by tauto. by rewrite Hrest.
  - rewrite !filter_cons_False by tauto. done.
Qed.

(** C4, as the code has it. A names stream is the root line, then one line
    for each rank of the first record, then, record after record in the
    order of the table, the lines of the cells that are missing or differ
    from the cell of the same column in the record just before, in the
    order of the ranks. A later record gets a line at a rank exactly when
    its cell there is [nan] or is not the cell above it; no other record
    takes part in the decision. The frame holds names and [nan]. *)
Theorem names_dump_adjacent_changes (df : DataFrame) (ncbi : NCBITaxa)
    (lines : list string) (t : list event) :
  no_None df →
  create_names_dump df ncbi = Ok (lines, t) →
  ∃ first_entry later,
    rows df = first_entry :: later ∧
    lines = root_names_line ::
            map (λ level, names_line_of ncbi (level, cell_of first_entry level)) rank_order
            ++ concat (zip_with
                 (λ previous row,
                    map (λ level, names_line_of ncbi (level, cell_of row level))
                        (filter (λ level,
                                   isnull (cell_of row level) = true ∨
                                   cell_of row level ≠ cell_of previous level)
                                rank_order))
                 (first_entry :: later) later).
Proof.
  intros Hnone (Hv & _ & _ & -> & _)%create_names_dump_Ok.
  unfold emitted_cells. unfold no_None in Hnone.
  destruct (rows df) as [|first_entry later] eqn:Hrows.
  { unfold rows in Hrows. by destruct (values df). }
  exists first_entry, later. split; [done|].
  f_equal. rewrite map_app, later_cells_zip.
  replace (map (names_line_of ncbi) (record_cells first_entry))
    with (map (λ level, names_line_of ncbi (level, cell_of first_entry level)) rank_order)
    by (unfold record_cells; by rewrite map_map).
  f_equal.
  assert (Hlater : ∀ row level, row ∈ later → level ∈ rank_order →
                     cell_of row level ≠ PyNone).
  { intros row level Hrow. apply Hnone. by right. }
  clear Hrows Hnone. generalize (first_entry :: later). intros prevs.
  revert prevs. induction later as [|row later IH]; intros [|p prevs]; try done.
  cbn [zip_with concat]. rewrite map_app, IH.
  - f_equal. unfold changed_cells. rewrite map_map. f_equal.
    apply filter_ext_in. intros level Hlevel.
    apply py_ne_missing_or_different. apply Hlater; [by left|done].
  - intros row' level Hrow'. apply Hlater. by right.
Qed.

(** C4 fails as it is stated: the two records of [nan_twice] are the same,
    and the second gets a line for its phylum, which is missing as the
    phylum above it is. *)
Lemma names_dump_nan_under_nan :
  (∃ r, values nan_twice = [r; r]) ∧
  ∃ t, create_names_dump nan_twice knows_nothing
       = Ok ([root_names_line;
              names_line "A" "k__A"; names_line "nan" "p__nan"; names_line "C" "c__C";
              names_line "O" "o__O"; names_line "F" "f__F"; names_line "G" "g__G";
              names_line "S" "s__S";
              names_line "nan" "p__nan"], t).
Proof.
  split; [by eexists|]. eexists. vm_compute. reflexivity.
Qed.

Lemma nodes_walk_unfold ncbi row rank ranks parent st :
  nodes_walk ncbi row (rank :: ranks) parent st =
  child ← lift (series_get row rank);
  if notna child then
    child_id ← getTaxIDFromNCBI child ncbi;
    parent_id ← parent_tax_id ncbi parent;
    st' ← (if decide ((child_id, parent_id) ∉ st.2)
           then
             line ← nodes_write_line ncbi child parent rank;
             ret (st.1 ++ [line], st.2 ∪ {[ (child_id, parent_id) ]})
           else ret st);
    nodes_walk ncbi row ranks child st'
  else ret st.
Proof. reflexivity. Qed.

(** C5, for the nodes stream. The walk of a record that has no value at the
    rank [gap] is the walk down the ranks above [gap]: it reads no cell
    below the gap and writes no line for one, whatever these cells hold;
    so two records that agree down to the gap get the same lines. *)
Theorem nodes_walk_stops_at_gap (ncbi : NCBITaxa) (row : Series)
    (above below : list string) (gap : string) (v parent : cell) (st : nodes_state) :
  series_get row gap = Ok v → isnull v = true →
  nodes_walk ncbi row (above ++ gap :: below) parent st
  = nodes_walk ncbi row above parent st ∧
  ∀ row', (∀ rank, rank ∈ above ++ [gap] → series_get row' rank = series_get row rank) →
    nodes_walk ncbi row' (above ++ gap :: below) parent st
    = nodes_walk ncbi row (above ++ gap :: below) parent st.
Proof.
  intros Hgap Hnull.
  assert (Hstop : ∀ r, series_get r gap = Ok v → ∀ parent st,
            nodes_walk ncbi r (above ++ gap :: below) parent st
            = nodes_walk ncbi r above parent st).
  { intros r Hr. induction above as [|rank above IH]; intros p s.
    - cbn [app]. rewrite nodes_walk_unfold, Hr, bind_lift_Ok.
      unfold notna. by rewrite Hnull.
    - rewrite <- app_comm_cons, !nodes_walk_unfold.
      apply bind_ext. intros child. destruct (notna child); [|done].
      apply bind_ext. intros child_id. apply bind_ext. intros parent_id.
      apply bind_ext. intros st'. apply IH. }
  split; [by apply Hstop|]. intros row' Hsame.
  rewrite !Hstop; [|done|]; last first.
  { rewrite Hsame; [done|]. apply elem_of_app. right. by left. }
  assert (Habove : ∀ rank, rank ∈ above → series_get row' rank = series_get row rank).
  { intros rank Hin. apply Hsame, elem_of_app. by left. }
  clear Hsame Hstop. revert parent st.
  induction above as [|rank above IH]; intros p s; [done|].
  rewrite !nodes_walk_unfold, Habove by by left.
  apply bind_ext. intros child. destruct (notna child); [|done].
  apply bind_ext. intros child_id. apply bind_ext. intros parent_id.
  apply bind_ext. intros st'. apply IH. intros rank' Hin. apply Habove. by right.
Qed.

(** C5 fails for the names stream: the names emitter has no rule for
    gaps. For the record [gap_record], with a kingdom, no phylum and the
    class B, the nodes stream stops after the kingdom, but the names stream
    has a line for the missing phylum and a line for B. *)
Lemma names_dump_ignores_gaps :
  ∃ names nodes t1 t2,
    create_names_dump gap_record knows_nothing = Ok (names, t1) ∧
    create_nodes_dump gap_record knows_nothing = Ok (nodes, t2) ∧
    nodes = [root_nodes_line; nodes_line "A" "1" "kingdom"] ∧
    names !! 2%nat = Some (names_line "nan" "p__nan") ∧
    names !! 3%nat = Some (names_line "B" "c__B").
Proof.
  eexists _, _, _, _. split; [vm_compute; reflexivity|].
  split; [vm_compute; reflexivity|]. split; [|split]; reflexivity.
Qed.

Lemma knows_nothing_id ncbi :
  (∀ names, get_name_translator ncbi names = Ok []) → ∀ taxa, tax_id ncbi taxa = Ok taxa.
Proof. intros Hn taxa. unfold tax_id. by rewrite Hn. Qed.

Lemma working_resolvable ncbi steps : working ncbi → Forall (resolvable ncbi) steps.
Proof. intros Hw. apply Forall_forall. intros s _. split; [apply Hw|intros _; apply Hw]. Qed.

(** C7. [getTaxIDFromNCBI] returns the text of the first tax id of the
    first name in the resolver's answer when the answer has one, and the
    name it was given, unchanged, when the answer is empty, after printing
    a warning; it raises nothing in either case. With a resolver that
    misses every name, the nodes emitter runs to its end on every frame,
    with the names themselves as identifiers. *)
Theorem getTaxIDFromNCBI_id_or_name (ncbi : NCBITaxa) (taxa : cell) :
  (∀ k i ids d, get_name_translator ncbi [taxa] = Ok ((k, i :: ids) :: d) →
     getTaxIDFromNCBI taxa ncbi = Ok (Str (str i), [Resolve [taxa]])) ∧
  (get_name_translator ncbi [taxa] = Ok [] →
     getTaxIDFromNCBI taxa ncbi = Ok (taxa, [Resolve [taxa]; Stdout (warning taxa)])) ∧
  ((∀ names, get_name_translator ncbi names = Ok []) →
     the_id ncbi taxa = taxa ∧
     ∀ df, ∃ t, create_nodes_dump df ncbi
                = Ok (root_nodes_line :: map (nodes_line_of ncbi) (written_steps df ncbi), t)).
Proof.
  split_and!.
  - intros k i ids d Hd. unfold getTaxIDFromNCBI, ask. by rewrite Hd.
  - intros Hd. unfold getTaxIDFromNCBI, ask. by rewrite Hd.
  - intros Hn. pose proof (knows_nothing_id ncbi Hn) as Hid.
    split; [by apply the_id_Ok|]. intros df. apply create_nodes_dump_total.
    apply working_resolvable. intros name. eexists. apply Hid.
Qed.

Lemma getTaxIDFromNCBI_id_or_name_witness :
  getTaxIDFromNCBI (Str "Metazoa") knows_some
    = Ok (Str "33208", [Resolve [Str "Metazoa"]]) ∧
  getTaxIDFromNCBI (Str "Canis") knows_some
    = Ok (Str "Canis", [Resolve [Str "Canis"]; Stdout (warning (Str "Canis"))]) ∧
  the_id knows_nothing (Str "Canis") = Str "Canis".
Proof.
  split; [|split].
  - apply (proj1 (getTaxIDFromNCBI_id_or_name knows_some (Str "Metazoa"))
             (Str "Metazoa") 33208%Z [] []). reflexivity.
  - apply (proj1 (proj2 (getTaxIDFromNCBI_id_or_name knows_some (Str "Canis")))).
    reflexivity.
  - apply (proj2 (proj2 (getTaxIDFromNCBI_id_or_name knows_nothing (Str "Canis")))).
    intros names. reflexivity.
Defined.

Lemma emitted_cells_length df :
  (length (emitted_cells df) ≤ length rank_order * length (rows df))%nat.
Proof.
  assert (Hch : ∀ p row, (length (changed_cells p row) ≤ length rank_order)%nat).
  { intros p row. unfold changed_cells. rewrite length_map. apply length_filter. }
  unfold emitted_cells. destruct (rows df) as [|first_entry later]; [simpl; lia|].
  rewrite length_app. unfold record_cells at 1. rewrite length_map.
  cut (length (later_cells first_entry later) ≤ length rank_order * length later)%nat.
  { simpl. lia. }
  generalize first_entry. induction later as [|row later IH]; intros p; [simpl; lia|].
  cbn [later_cells]. rewrite length_app. specialize (Hch p row). specialize (IH row).
  simpl in *. lia.
Qed.

(** C10. The names emitter needs a frame with a record and with all seven
    rank columns: without a record it raises [IndexError]; with a record
    but without one of the columns it raises an exception ([KeyError],
    unless the resolver raised before); and with both, and a resolver that
    answers, it writes a stream. The nodes emitter, with a resolver that
    answers, writes a stream for every frame: it walks the rank columns
    the frame has. *)
Theorem create_names_dump_needs_ranks (df : DataFrame) (ncbi : NCBITaxa) :
  (values df = [] → create_names_dump df ncbi = Err IndexError) ∧
  (∀ level, values df ≠ [] → level ∈ rank_order → level ∉ columns df →
     ∃ e, create_names_dump df ncbi = Err e) ∧
  (values df ≠ [] → rank_order ⊆ columns df → working ncbi →
     ∃ t, create_names_dump df ncbi
          = Ok (root_names_line :: map (names_line_of ncbi) (emitted_cells df), t)) ∧
  (working ncbi →
     ∃ t, create_nodes_dump df ncbi
          = Ok (root_nodes_line :: map (nodes_line_of ncbi) (written_steps df ncbi), t)).
Proof.
  split_and!.
  - apply create_names_dump_empty.
  - intros level. apply create_names_dump_missing_column.
  - intros Hv Hcols Hw. apply create_names_dump_total; [done|done|].
    apply Forall_forall. intros c _. apply Hw.
  - intros Hw. by apply create_nodes_dump_total, working_resolvable.
Qed.

Lemma knows_nothing_working : working knows_nothing.
Proof. intros taxa. by exists taxa. Qed.

Lemma create_names_dump_needs_ranks_witness :
  create_names_dump no_records knows_nothing = Err IndexError ∧
  (∃ e, create_names_dump one_cell knows_nothing = Err e) ∧
  (∃ t, create_names_dump mammals knows_nothing
        = Ok (root_names_line :: map (names_line_of knows_nothing) (emitted_cells mammals), t)) ∧
  (∃ t, create_nodes_dump one_cell knows_nothing
        = Ok (root_nodes_line :: map (nodes_line_of knows_nothing)
                                     (written_steps one_cell knows_nothing), t)).
Proof.
  split_and!.
  - apply (proj1 (create_names_dump_needs_ranks no_records knows_nothing)). reflexivity.
  - apply (proj1 (proj2 (create_names_dump_needs_ranks one_cell knows_nothing)) "phylum").
    + discriminate.
    + by apply (bool_decide_unpack _).
    + by apply (bool_decide_unpack _).
  - apply (proj1 (proj2 (proj2 (create_names_dump_needs_ranks mammals knows_nothing)))).
    + discriminate.
    + intros level Hl. exact Hl.
    + exact knows_nothing_working.
  - apply (proj2 (proj2 (proj2 (create_names_dump_needs_ranks one_cell knows_nothing)))).
    exact knows_nothing_working.
Defined.

Lemma step_calls_length s : (1 ≤ length (step_calls s) ≤ 2)%nat.
Proof. unfold step_calls. destruct (py_ne s.1.2 (Str "root")); simpl; lia. Qed.

Lemma flat_step_calls_length (steps : list step) :
  (length steps ≤ length (flat_map step_calls steps) ≤ 2 * length steps)%nat.
Proof.
  induction steps as [|s steps IH]; [simpl; lia|].
  cbn [flat_map]. rewrite length_app. pose proof (step_calls_length s).
  cbn [length]. lia.
Qed.

Lemma process_all_calls_at ncbi steps st st' t :
  foldM (process ncbi) st steps = Ok (st', t) →
  calls t = concat (imap (λ i s,
              step_calls s ++
              (if decide (pair_of ncbi s ∈
                            st.2 ∪ list_to_set (map (pair_of ncbi) (take i steps)))
               then [] else step_calls s)) steps).
Proof.
  revert st t. induction steps as [|s steps IH]; intros st t H.
  - by apply ret_Ok_inv in H as [<- ->].
  - rewrite foldM_cons in H. apply bind_Ok_inv in H as (st1 & t1 & t2 & Hs & H & ->).
    apply process_Ok in Hs as (_ & -> & Hc). apply IH in H.
    rewrite calls_app, Hc, H. rewrite imap_cons. cbn [concat]. f_equal.
    { cbn [take map list_to_set]. by rewrite (right_id_L ∅ (∪)). }
    f_equal. apply imap_ext. intros i s' _. cbn [compose take map list_to_set].
    f_equal. destruct (decide (pair_of ncbi s ∈ st.2)) as [Hs|Hs]; cbn [snd];
      repeat case_decide; try done; exfalso;
      repeat match goal with
             | H : _ ∈ _ ∪ _ |- _ => apply elem_of_union in H
             | H : _ ∉ _ ∪ _ |- _ => apply not_elem_of_union in H
             | H : _ ∈ {[ _ ]} |- _ => apply elem_of_singleton in H
             | H : _ ∉ {[ _ ]} |- _ => apply not_elem_of_singleton in H
             | H : _ ∧ _ |- _ => destruct H
             | H : _ ∨ _ |- _ => destruct H
             end; congruence.
Qed.

Lemma nodes_step_calls_length ncbi steps i s :
  (1 ≤ length (nodes_step_calls ncbi steps i s) ≤ 4)%nat.
Proof.
  unfold nodes_step_calls. rewrite length_app. pose proof (step_calls_length s) as Hs.
  destruct (decide _); [change (length (@nil (list cell))) with 0%nat|]; lia.
Qed.

Lemma create_nodes_dump_calls df ncbi lines t :
  create_nodes_dump df ncbi = Ok (lines, t) →
  calls t = concat (imap (nodes_step_calls ncbi (all_steps df)) (all_steps df)).
Proof.
  rewrite create_nodes_dump_eq. intros H.
  apply bind_Ok_inv in H as (st & t1 & t2 & Hst & H & ->).
  apply ret_Ok_inv in H as [<- ->]. rewrite app_nil_r.
  by apply process_all_calls_at in Hst.
Qed.

(** The steps that get a line are the steps whose pair is not yet
    written. *)
Lemma fresh_steps_at (ncbi : NCBITaxa) (W : gset (cell * cell)) (steps : list step)
    (s : step) :
  s ∈ fresh_steps ncbi W steps ↔
  ∃ i, steps !! i = Some s ∧
       pair_of ncbi s ∉ W ∪ list_to_set (map (pair_of ncbi) (take i steps)).
Proof.
  revert W. induction steps as [|s0 steps IH]; intros W.
  - simpl. split; [by intros ?%elem_of_nil|]. by intros (i & ? & _).
  - assert (Hnow : pair_of ncbi s0 ∉ W ↔
              pair_of ncbi s0 ∉ W ∪ list_to_set (map (pair_of ncbi) (take 0 (s0 :: steps)))).
    { cbn [take map list_to_set]. by rewrite (right_id_L ∅ (∪)). }
    assert (Hlater : ∀ i p,
              p ∉ (W ∪ {[pair_of ncbi s0]}) ∪ list_to_set (map (pair_of ncbi) (take i steps)) ↔
              p ∉ W ∪ list_to_set (map (pair_of ncbi) (take (S i) (s0 :: steps)))).
    { intros i p. cbn [take map list_to_set]. by rewrite (assoc_L (∪)). }
    cbn [fresh_steps]. destruct (decide (pair_of ncbi s0 ∈ W)) as [Hin|Hin].
    + assert (HW : W ∪ {[pair_of ncbi s0]} = W).
      { rewrite (comm_L (∪)). apply subseteq_union_1_L. by apply singleton_subseteq_l. }
      rewrite HW in Hlater. rewrite IH. split.
      * intros (i & Hi & Hn). exists (S i). split; [done|]. by apply Hlater.
      * intros ([|i] & Hi & Hn).
        -- injection Hi as <-. by apply Hnow in Hn.
        -- exists i. split; [done|]. by apply Hlater.
    + rewrite elem_of_cons, IH. split.
      * intros [->|(i & Hi & Hn)].
        -- exists 0%nat. split; [done|]. by apply Hnow.
        -- exists (S i). split; [done|]. by apply Hlater.
      * intros ([|i] & Hi & Hn).
        -- injection Hi as <-. by left.
        -- right. exists i. split; [done|]. by apply Hlater.
Qed.

(** C8, as the code has it. In a pass of the names emitter the resolver is
    asked once for each cell that gets a line, about that cell, and about
    nothing else. In a pass of the nodes emitter it is asked, step after
    step of the walks, about the child of the step and, unless the parent
    is the root, about the parent, and about both once more when the line
    of the step is written, which is when the pair of the step is not the
    root pair and not the pair of a step before: for each cell the walks
    come to, at least once and at most four times. *)
Theorem resolver_calls_per_pass (df : DataFrame) (ncbi : NCBITaxa) :
  (∀ lines t, create_names_dump df ncbi = Ok (lines, t) →
     calls t = map (λ c, [c.2]) (emitted_cells df) ∧
     length lines = S (length (calls t)) ∧
     (length (calls t) ≤ length rank_order * length (rows df))%nat) ∧
  (∀ lines t, create_nodes_dump df ncbi = Ok (lines, t) →
     calls t = concat (imap (nodes_step_calls ncbi (all_steps df)) (all_steps df)) ∧
     (∀ i s, all_steps df !! i = Some s →
        nodes_step_calls ncbi (all_steps df) i s
        = ([s.1.1] :: (if py_ne s.1.2 (Str "root") then [[s.1.2]] else [])) ++
          (if decide (pair_of ncbi s ∈ written_before ncbi (all_steps df) i)
           then []
           else [s.1.1] :: (if py_ne s.1.2 (Str "root") then [[s.1.2]] else [])) ∧
        (1 ≤ length (nodes_step_calls ncbi (all_steps df) i s) ≤ 4)%nat) ∧
     lines = root_nodes_line :: map (nodes_line_of ncbi) (written_steps df ncbi) ∧
     (∀ s, s ∈ written_steps df ncbi ↔
           ∃ i, all_steps df !! i = Some s ∧
                pair_of ncbi s ∉ written_before ncbi (all_steps df) i) ∧
     length (calls t) =
       (length (flat_map step_calls (all_steps df)) +
        length (flat_map step_calls (written_steps df ncbi)))%nat ∧
     (length (all_steps df) ≤ length (calls t) ≤ 4 * length (all_steps df))%nat).
Proof.
  split.
  - intros lines t (_ & _ & _ & -> & Hc)%create_names_dump_Ok.
    rewrite Hc. split; [done|]. simpl. rewrite !length_map. split; [done|].
    apply emitted_cells_length.
  - intros lines t Hrun. split; [by apply create_nodes_dump_calls in Hrun|].
    split; [intros i s _; split; [done|apply nodes_step_calls_length]|].
    apply create_nodes_dump_Ok in Hrun as (_ & Hlines & Hn). split; [done|].
    split; [intros s; apply fresh_steps_at|]. split; [done|]. rewrite Hn.
    pose proof (flat_step_calls_length (all_steps df)).
    pose proof (flat_step_calls_length (written_steps df ncbi)).
    pose proof (fresh_steps_length ncbi {[ root_pair ]} (all_steps df)) as Hf.
    unfold written_steps in *. lia.
Qed.

(** C8 fails as it is stated: the frame [one_cell] has one cell, the walk
    comes to it once, and the nodes emitter asks the resolver about it
    twice, once for the pair and once more for the line. *)
Lemma nodes_dump_asks_twice :
  all_steps one_cell = [(Str "A", Str "root", "kingdom")] ∧
  ∃ t, create_nodes_dump one_cell knows_nothing
       = Ok ([root_nodes_line; nodes_line "A" "1" "kingdom"], t) ∧
       calls t = [[Str "A"]; [Str "A"]] ∧
       ¬ (length (calls t) ≤ length (all_steps one_cell))%nat.
Proof.
  split; [reflexivity|]. eexists. split; [vm_compute; reflexivity|].
  split; [reflexivity|]. vm_compute. lia.
Qed.

(** ** The claims at the frame [mammals] *)

Lemma nodes_dump_pairs_once_witness :
  ∃ lines t,
    create_nodes_dump mammals knows_some = Ok (lines, t) ∧
    NoDup (("1", "1") :: map (id_pair knows_some) (written_steps mammals knows_some)) ∧
    (∀ s, s ∈ all_steps mammals →
          id_pair knows_some s
          ∈ ("1", "1") :: map (id_pair knows_some) (written_steps mammals knows_some)).
Proof.
  edestruct (nodes_dump_pairs_once mammals knows_some) as (_ & Hnodup & _ & Hcover);
    [vm_compute; reflexivity|].
  eexists _, _. split; [vm_compute; reflexivity|].
  split; [exact Hnodup|exact Hcover].
Defined.

Lemma root_lines_first_witness :
  (∃ t rest, create_names_dump mammals knows_some = Ok (root_names_line :: rest, t) ∧
             root_names_line ∉ rest) ∧
  (∃ t rest, create_nodes_dump mammals knows_some = Ok (root_nodes_line :: rest, t) ∧
             root_nodes_line ∉ rest).
Proof.
  destruct (root_lines_first mammals knows_some) as [Hnames Hnodes]. split.
  - edestruct Hnames as (rest & Heq & Hrest); [vm_compute; reflexivity|].
    eexists _, rest. split; [rewrite <- Heq; vm_compute; reflexivity|].
    apply Hrest. intros row level Hrow Hlevel.
    assert (Hall : Forall (λ row, Forall (λ level, cell_of row level ≠ Str "root") rank_order)
                     (rows mammals)) by (apply (bool_decide_unpack _); vm_compute; exact I).
    rewrite Forall_forall in Hall. specialize (Hall row Hrow).
    rewrite Forall_forall in Hall. exact (Hall level Hlevel).
  - edestruct Hnodes as (rest & Heq & Hrest); [vm_compute; reflexivity|].
    eexists _, rest. split; [rewrite <- Heq; vm_compute; reflexivity|exact Hrest].
Defined.

Lemma nodes_ids_have_names_witness :
  ∃ names nodes t1 t2,
    create_names_dump mammals knows_some = Ok (names, t1) ∧
    create_nodes_dump mammals knows_some = Ok (nodes, t2) ∧
    ∀ s, s ∈ written_steps mammals knows_some →
      (∃ entry, names_line (id_pair knows_some s).1 entry ∈ names) ∧
      (∃ entry, names_line (id_pair knows_some s).2 entry ∈ names).
Proof.
  edestruct (nodes_ids_have_names mammals knows_some) as (_ & _ & Hids);
    [vm_compute; reflexivity|vm_compute; reflexivity|].
  eexists _, _, _, _. split; [vm_compute; reflexivity|].
  split; [vm_compute; reflexivity|]. exact Hids.
Defined.

Lemma names_dump_adjacent_changes_witness :
  ∃ lines t first_entry later,
    create_names_dump mammals knows_some = Ok (lines, t) ∧
    rows mammals = first_entry :: later ∧
    lines = root_names_line ::
            map (λ level, names_line_of knows_some (level, cell_of first_entry level))
                rank_order
            ++ concat (zip_with
                 (λ previous row,
                    map (λ level, names_line_of knows_some (level, cell_of row level))
                        (filter (λ level,
                                   isnull (cell_of row level) = true ∨
                                   cell_of row level ≠ cell_of previous level)
                                rank_order))
                 (first_entry :: later) later).
Proof.
  edestruct (names_dump_adjacent_changes mammals knows_some)
    as (first_entry & later & Hrows & Hlines).
  - intros row level Hrow Hlevel.
    assert (Hall : Forall (λ row, Forall (λ level, cell_of row level ≠ PyNone) rank_order)
                     (rows mammals)) by (apply (bool_decide_unpack _); vm_compute; exact I).
    rewrite Forall_forall in Hall. specialize (Hall row Hrow).
    rewrite Forall_forall in Hall. exact (Hall level Hlevel).
  - vm_compute. reflexivity.
  - eexists _, _, first_entry, later. split; [vm_compute; reflexivity|].
    split; [exact Hrows|exact Hlines].
Defined.

Lemma nodes_walk_stops_at_gap_witness :
  let row := {| labels := rank_order;
                cells := [Str "A"; NaN; Str "B"; Str "C"; Str "D"; Str "E"; Str "F"] |} in
  let st : nodes_state := ([root_nodes_line], {[ root_pair ]}) in
  nodes_walk knows_nothing row
    (["kingdom"] ++ "phylum" :: ["class"; "order"; "family"; "genus"; "species"])
    (Str "root") st
  = nodes_walk knows_nothing row ["kingdom"] (Str "root") st.
Proof.
  intros row st.
  refine (proj1 (nodes_walk_stops_at_gap knows_nothing row ["kingdom"]
           ["class"; "order"; "family"; "genus"; "species"] "phylum" NaN (Str "root") st
           _ _)).
  - reflexivity.
  - reflexivity.
Defined.

Lemma resolver_calls_per_pass_witness :
  (∃ lines t, create_names_dump mammals knows_some = Ok (lines, t) ∧
     calls t = map (λ c : string * cell, [c.2]) (emitted_cells mammals) ∧
     length lines = S (length (calls t))) ∧
  (∃ lines t, create_nodes_dump mammals knows_some = Ok (lines, t) ∧
     calls t = concat (imap (nodes_step_calls knows_some (all_steps mammals))
                            (all_steps mammals)) ∧
     (length (all_steps mammals) ≤ length (calls t) ≤ 4 * length (all_steps mammals))%nat).
Proof.
  destruct (resolver_calls_per_pass mammals knows_some) as [Hnames Hnodes]. split.
  - edestruct Hnames as (Hc & Hlen & _); [vm_compute; reflexivity|].
    eexists _, _. split; [vm_compute; reflexivity|]. split; [exact Hc|exact Hlen].
  - edestruct Hnodes as (Hc & _ & _ & _ & _ & Hle); [vm_compute; reflexivity|].
    eexists _, _. split; [vm_compute; reflexivity|]. split; [exact Hc|exact Hle].
Defined.

(** * More about the imputer *)

Lemma pretty_N_go_ne_underscore x s s' :
  s ≠ String "_" s' → pretty_N_go x s ≠ String "_" s'.
Proof.
  revert s. induction (N.lt_wf_0 x) as [x _ IH]; intros s Hs.
  assert (x = 0 ∨ 0 < x)%N as [->|Hx] by lia.
  - by rewrite pretty_N_go_0.
  - rewrite pretty_N_go_step by done. apply IH.
    { by apply N.div_lt. }
    unfold pretty_N_char. by repeat case_match.
Qed.

Lemma str_ne_underscore i s : str i ≠ String "_" s.
Proof.
  unfold str, pretty, pretty_Z. destruct i as [|p|p]; [done| |done].
  unfold pretty, pretty_positive, pretty, pretty_N.
  rewrite decide_False by done. by apply pretty_N_go_ne_underscore.
Qed.

(** A placeholder is text, and it is not the sentinel. *)
Lemma placeholder_not_missing i : missing (placeholder i) = false.
Proof.
  unfold missing, placeholder. simpl. apply bool_decide_eq_false. intros H.
  assert (Happ : "unknown" +:+ str i = "unknown" +:+ "_rank_name").
  { change ("unknown" +:+ "_rank_name") with "unknown_rank_name". congruence. }
  apply String.app_inj in Happ. by apply str_ne_underscore in Happ.
Qed.

Lemma imputed_cell_origin df r c v :
  cell_at (imputed df) r c = Some v → ∃ v0, cell_at df r c = Some v0.
Proof.
  unfold cell_at. intros H.
  destruct (values (imputed df) !! r) as [row'|] eqn:Hr'; [simpl in H|done].
  assert (Hlen : map length (values (imputed df)) = map length (values df)).
  { unfold imputed. simpl. rewrite length_fill_rows, <- list_fmap_compose.
    apply list_fmap_ext. intros _ row _. simpl. apply length_map. }
  assert (Hl : map length (values (imputed df)) !! r = Some (length row')).
  { by rewrite list_lookup_fmap, Hr'. }
  rewrite Hlen, list_lookup_fmap in Hl.
  destruct (values df !! r) as [row|] eqn:Hr; [simpl in *|done].
  injection Hl as Hl. apply lookup_lt_Some in H. rewrite <- Hl in H.
  by apply lookup_lt_is_Some_2.
Qed.

Lemma imputed_not_missing df r c v :
  cell_at (imputed df) r c = Some v → missing v = false.
Proof.
  intros H. destruct (imputed_cell_origin df r c v H) as [v0 H0].
  rewrite (imputed_cell_at df r c v0 H0) in H. injection H as <-.
  destruct (missing v0) eqn:Hm; [apply placeholder_not_missing|done].
Qed.

Lemma fill_id i vs : Forall (λ v, isnull v = false) vs → fill i vs = vs.
Proof.
  intros Hvs. revert i. induction Hvs as [|v vs Hv _ IH]; intros i; [done|].
  simpl. by rewrite Hv, IH.
Qed.

Lemma count_null_zero vs : Forall (λ v, isnull v = false) vs → count_null vs = 0%nat.
Proof.
  induction 1 as [|v vs Hv _ IH]; [done|]. by rewrite count_null_cons, Hv, IH.
Qed.

Lemma fill_rows_id i vals :
  Forall (Forall (λ v, isnull v = false)) vals → fill_rows i vals = vals.
Proof.
  intros Hvals. revert i. induction Hvals as [|row vals Hrow _ IH]; intros i; [done|].
  simpl. rewrite fill_id, count_null_zero by done. by rewrite Z.add_0_r, IH.
Qed.

Lemma missing_false_parts v :
  missing v = false → isnull v = false ∧ replace_cell "unknown_rank_name" PyNone v = v.
Proof.
  intros Hm. split; [|by apply replace_not_missing].
  unfold missing in Hm. by apply orb_false_iff in Hm as [? _].
Qed.

(** A frame without a missing cell is its own imputation. *)
Lemma imputed_id df :
  (∀ r c v, cell_at df r c = Some v → missing v = false) → imputed df = df.
Proof.
  intros Hdf. destruct df as [cols vals]. unfold imputed, cell_at in *. simpl in *.
  f_equal.
  assert (Hall : Forall (Forall (λ v, missing v = false)) vals).
  { apply Forall_forall. intros row [r Hr]%list_elem_of_lookup.
    apply Forall_forall. intros v [c Hc]%list_elem_of_lookup.
    apply (Hdf r c). by rewrite Hr. }
  assert (Hrep : map (map (replace_cell "unknown_rank_name" PyNone)) vals = vals).
  { clear Hdf. induction Hall as [|row vals Hrow _ IH]; [done|].
    simpl. rewrite IH. f_equal.
    induction Hrow as [|v row Hv _ IHrow]; [done|].
    simpl. rewrite IHrow. f_equal. by apply missing_false_parts. }
  rewrite Hrep. apply fill_rows_id.
  eapply Forall_impl; [exact Hall|]. intros row Hrow.
  eapply Forall_impl; [exact Hrow|]. intros v Hv. by apply missing_false_parts.
Qed.

Section ImputerMore.
Context (h : gmap nat DataFrame) (taxon_df : nat) (df : DataFrame).
Hypothesis Hframe : h !! taxon_df = Some df.

(** X2. On a frame without a missing cell there is nothing to impute: the
    frame returned is a new object with the very contents of the frame
    passed in. *)
Theorem impute_taxons_nothing_to_do :
  (∀ r c v, cell_at df r c = Some v → missing v = false) →
  ∃ out h',
    impute_taxons taxon_df h = Some (out, h') ∧ out ≠ taxon_df ∧ h' !! out = Some df.
Proof.
  intros Hdf. pose proof (impute_taxons_run h taxon_df df Hframe) as Hrun.
  simpl in Hrun. rewrite (imputed_id df Hdf) in Hrun.
  eexists _, _. split; [exact Hrun|]. split; [|apply lookup_insert_eq].
  set (l1 := fresh (dom h)).
  assert (H1 : l1 ∉ dom h) by apply is_fresh.
  assert (H2 : fresh (dom (<[l1 := df]> h)) ∉ dom (<[l1 := df]> h)) by apply is_fresh.
  intros Heq. apply H2. rewrite Heq, dom_insert_L.
  apply elem_of_union_r. by apply elem_of_dom.
Qed.

End ImputerMore.

(** X1. The frame [impute_taxons] returns has no missing cell: no cell of it
    is null, and none holds the sentinel [unknown_rank_name]. It returns a
    frame whenever no missing cell lies in a [float64] column. *)
Theorem impute_taxons_complete (h : gmap nat TypedFrame) (taxon_df : nat)
    (d : TypedFrame) :
  h !! taxon_df = Some d → takes_text d →
  ∃ out h' d',
    Typed.impute_taxons taxon_df h = Some (Ok out, h') ∧ h' !! out = Some d' ∧
    ∀ r c v, cell_at (frame d') r c = Some v →
             isnull v = false ∧ v ≠ Str "unknown_rank_name".
Proof.
  intros Hl Ht. pose proof (typed_run_returns h taxon_df d Hl Ht) as Hrun.
  simpl in Hrun. eexists _, _, (with_values d (values (imputed (frame d)))).
  split; [exact Hrun|]. split; [apply lookup_insert_eq|]. intros r c v Hv.
  apply (imputed_not_missing (frame d)) in Hv. unfold missing in Hv.
  apply orb_false_iff in Hv as [Hnull Hs]. split; [done|].
  by apply bool_decide_eq_false in Hs.
Qed.

(** X3. Imputing twice is imputing once: when a call returns, a second call
    on the frame it returned returns too, a frame with the same contents,
    and leaves the first result as it was. *)
Theorem impute_taxons_twice (h : gmap nat TypedFrame) (taxon_df : nat)
    (d : TypedFrame) :
  h !! taxon_df = Some d → takes_text d →
  ∃ out1 h1 out2 h2 d',
    Typed.impute_taxons taxon_df h = Some (Ok out1, h1) ∧
    Typed.impute_taxons out1 h1 = Some (Ok out2, h2) ∧
    h1 !! out1 = Some d' ∧ h2 !! out1 = Some d' ∧ h2 !! out2 = Some d'.
Proof.
  intros Hl Ht. pose proof (typed_run_returns h taxon_df d Hl Ht) as Hrun1.
  simpl in Hrun1.
  set (d' := with_values d (values (imputed (frame d)))) in *.
  set (out1 := fresh (dom (<[fresh (dom h) := d]> h))) in *.
  set (h1 := <[out1 := d']> (<[fresh (dom h) := d]> h)) in *.
  assert (Hout1 : h1 !! out1 = Some d') by apply lookup_insert_eq.
  assert (Hfull : ∀ r c v, cell_at (frame d') r c = Some v → missing v = false).
  { intros r c v. apply (imputed_not_missing (frame d)). }
  pose proof (typed_run_returns h1 out1 d' Hout1 (takes_text_complete d' Hfull)) as Hrun2.
  cbv zeta in Hrun2. rewrite (imputed_id (frame d') Hfull) in Hrun2.
  rewrite with_values_id in Hrun2.
  eexists out1, h1, _, _, d'.
  split; [exact Hrun1|]. split; [exact Hrun2|]. split; [exact Hout1|].
  split; [|apply lookup_insert_eq].
  set (l1 := fresh (dom h1)) in *.
  assert (H1 : l1 ∉ dom h1) by apply is_fresh.
  assert (H2 : fresh (dom (<[l1 := d']> h1)) ∉ dom (<[l1 := d']> h1))
    by apply is_fresh.
  assert (Hin : out1 ∈ dom h1) by by apply elem_of_dom.
  rewrite !lookup_insert_ne; [done| |].
  - intros Heq. apply H1. by rewrite Heq.
  - intros Heq. apply H2. rewrite Heq, dom_insert_L. by apply elem_of_union_r.
Qed.

(** * More about the nodes stream *)

Lemma chained_mono ncbi known known' steps :
  known ⊆ known' → chained ncbi known steps → chained ncbi known' steps.
Proof.
  revert known known'. induction steps as [|s steps IH]; intros known known' Hsub; [done|].
  intros [Hp Hrest]. split; [by apply Hsub|].
  eapply IH; [|exact Hrest]. intros x [->|Hx]%elem_of_cons; [by left|right; by apply Hsub].
Qed.

Lemma chained_app ncbi known xs ys :
  chained ncbi known xs → chained ncbi known ys → chained ncbi known (xs ++ ys).
Proof.
  revert known. induction xs as [|s xs IH]; intros known Hxs Hys; [done|].
  destruct Hxs as [Hp Hxs]. split; [done|]. apply IH; [done|].
  eapply chained_mono; [|exact Hys]. intros x Hx. by right.
Qed.

Lemma steps_of_chained ncbi row ranks parent known :
  "1" ∈ known → py_str (the_parent_id ncbi parent) ∈ known →
  chained ncbi known (steps_of row ranks parent).
Proof.
  revert parent known. induction ranks as [|rank ranks IH]; intros parent known H1 Hp; [done|].
  cbn [steps_of]. destruct (notna (cell_of row rank)); [|done].
  split; [done|]. apply IH; [by right|].
  unfold id_pair, the_parent_id. cbn [fst snd].
  destruct (py_ne (cell_of row rank) (Str "root")); [by left|by right].
Qed.

Lemma all_steps_chained ncbi df : chained ncbi ["1"] (all_steps df).
Proof.
  unfold all_steps. induction (rows df) as [|row rs IH]; [done|].
  cbn [flat_map]. apply chained_app; [|done].
  apply steps_of_chained; by left.
Qed.

Lemma id_pair_of ncbi s :
  id_pair ncbi s = (py_str (pair_of ncbi s).1, py_str (pair_of ncbi s).2).
Proof. done. Qed.

Lemma fresh_steps_chained ncbi W steps known :
  (∀ p, p ∈ W → py_str p.1 ∈ known) →
  chained ncbi known steps → chained ncbi known (fresh_steps ncbi W steps).
Proof.
  revert W known. induction steps as [|s steps IH]; intros W known HW; [done|].
  intros [Hp Hrest]. cbn [fresh_steps].
  destruct (decide (pair_of ncbi s ∈ W)) as [Hin|Hin].
  - apply IH; [done|]. eapply chained_mono; [|exact Hrest].
    intros x [->|Hx]%elem_of_cons; [|done].
    rewrite id_pair_of. cbn [fst]. by apply HW.
  - split; [done|]. apply IH; [|done].
    intros p [Hp'|Hp'%elem_of_singleton]%elem_of_union.
    + right. by apply HW.
    + subst p. by left.
Qed.

Lemma chained_lookup ncbi known steps i s :
  chained ncbi known steps → steps !! i = Some s →
  (id_pair ncbi s).2 ∈ known ∨
  ∃ j s', (j < i)%nat ∧ steps !! j = Some s' ∧ (id_pair ncbi s').1 = (id_pair ncbi s).2.
Proof.
  revert known i. induction steps as [|s0 steps IH]; intros known i Hch Hi; [done|].
  destruct Hch as [Hp Hrest]. destruct i as [|i].
  - injection Hi as <-. by left.
  - cbn in Hi. destruct (IH _ _ Hrest Hi) as [Hk|(j & s' & Hj & Hs' & Heq)].
    + apply elem_of_cons in Hk as [Hk|Hk]; [|by left].
      right. exists 0%nat, s0. split; [lia|]. by split.
    + right. exists (S j), s'. split; [lia|]. by split.
Qed.

(** X4. In a nodes stream parents come first: on every line but the first,
    the parent identifier is the child identifier of an earlier line (of
    the root line, when the parent is the root). *)
Theorem nodes_dump_parents_first (df : DataFrame) (ncbi : NCBITaxa)
    (lines : list string) (t : list event) :
  create_nodes_dump df ncbi = Ok (lines, t) →
  lines = map (λ p, nodes_line p.1.1 p.1.2 p.2)
              (("1", "1", "no rank") ::
               map (λ s, (id_pair ncbi s, formatted s.2)) (written_steps df ncbi)) ∧
  ∀ i p, written_pairs df ncbi !! S i = Some p →
    ∃ j q, (j ≤ i)%nat ∧ written_pairs df ncbi !! j = Some q ∧ q.1 = p.2.
Proof.
  intros (_ & -> & _)%create_nodes_dump_Ok. split.
  { cbn [map]. f_equal. by rewrite map_map. }
  unfold written_pairs. intros i p Hp. cbn in Hp.
  apply list_lookup_fmap_Some in Hp as (s & -> & Hs).
  assert (Hch : chained ncbi ["1"] (written_steps df ncbi)).
  { apply fresh_steps_chained; [|apply all_steps_chained].
    intros p [= ->]%elem_of_singleton. by left. }
  destruct (chained_lookup _ _ _ _ _ Hch Hs) as [Hk|(j & s' & Hj & Hs' & Heq)].
  - apply list_elem_of_singleton in Hk. exists 0%nat, ("1", "1").
    split; [lia|]. by split.
  - exists (S j), (id_pair ncbi s'). split; [lia|]. split; [|done].
    cbn. apply list_lookup_fmap_Some. by exists s'.
Qed.

Lemma written_pairs_spec df ncbi p :
  p ∈ written_pairs df ncbi ↔
  p = ("1", "1") ∨ ∃ s, s ∈ all_steps df ∧ id_pair ncbi s = p.
Proof.
  unfold written_pairs. rewrite elem_of_cons, list_elem_of_fmap. split.
  - intros [->|(s & -> & Hs)]; [by left|]. right. exists s. split; [|done].
    by apply fresh_steps_sub in Hs.
  - intros [->|(s & Hs & <-)]; [by left|].
    destruct (fresh_steps_cover ncbi {[ root_pair ]} (all_steps df) s Hs) as [Hr|Hw].
    + left. apply elem_of_singleton in Hr. by rewrite id_pair_of, Hr.
    + right. apply list_elem_of_fmap in Hw as (s' & Heq & Hs').
      exists s'. split; [|done]. by rewrite !id_pair_of, Heq.
Qed.

Lemma written_pairs_NoDup df ncbi : NoDup (written_pairs df ncbi).
Proof.
  unfold written_pairs.
  assert (Htext : map (pair_of ncbi) (written_steps df ncbi)
                  = map (λ p : string * string, (Str p.1, Str p.2))
                        (map (id_pair ncbi) (written_steps df ncbi))).
  { rewrite <- list_fmap_compose. apply list_fmap_ext. intros i s Hs. simpl.
    apply (pair_of_text df). eapply fresh_steps_sub. by eapply list_elem_of_lookup_2. }
  apply (NoDup_fmap_1 (λ p : string * string, (Str p.1, Str p.2))).
  rewrite fmap_cons.
  change (NoDup (root_pair :: map (λ p : string * string, (Str p.1, Str p.2))
                                  (map (id_pair ncbi) (written_steps df ncbi)))).
  rewrite <- Htext. constructor; [|apply fresh_steps_NoDup].
  intros (s & Heq & Hs%fresh_steps_new)%list_elem_of_fmap.
  apply Hs. rewrite <- Heq. by apply elem_of_singleton.
Qed.

Lemma create_nodes_dump_Ok_iff df ncbi :
  (∃ lines t, create_nodes_dump df ncbi = Ok (lines, t)) ↔
  Forall (resolvable ncbi) (all_steps df).
Proof.
  split.
  - intros (lines & t & H). by apply create_nodes_dump_Ok in H as [H _].
  - intros H. destruct (create_nodes_dump_total df ncbi H) as [t Ht]. by eexists _, _.
Qed.

Lemma all_steps_Permutation df df' :
  columns df' = columns df → values df ≡ₚ values df' → all_steps df ≡ₚ all_steps df'.
Proof.
  intros Hc Hv. unfold all_steps, available_ranks, rows. rewrite Hc.
  apply Permutation_flat_map. by apply Permutation_map.
Qed.

Lemma fresh_steps_app (ncbi : NCBITaxa) (W : gset (cell * cell)) (xs ys : list step) :
  fresh_steps ncbi W (xs ++ ys)
  = fresh_steps ncbi W xs
    ++ fresh_steps ncbi (W ∪ list_to_set (map (pair_of ncbi) xs)) ys.
Proof.
  revert W. induction xs as [|s xs IH]; intros W.
  - cbn. by rewrite (right_id_L ∅ (∪)).
  - cbn [app fresh_steps map list_to_set].
    destruct (decide (pair_of ncbi s ∈ W)) as [Hin|Hin].
    + rewrite IH. do 2 f_equal. set_solver.
    + rewrite IH, <- app_comm_cons. do 3 f_equal. set_solver.
Qed.

Lemma fresh_steps_nil (ncbi : NCBITaxa) (W : gset (cell * cell)) (steps : list step) :
  (∀ s, s ∈ steps → pair_of ncbi s ∈ W) → fresh_steps ncbi W steps = [].
Proof.
  induction steps as [|s steps IH]; intros H; [done|].
  cbn [fresh_steps]. rewrite decide_True by (apply H; by left).
  apply IH. intros s' Hs'. apply H. by right.
Qed.

(** X6. A record that stands in the frame a second time adds nothing to the
    nodes stream: with a copy of an earlier record put in at any later
    place, the emitter writes the very same lines. *)
Theorem nodes_dump_repeated_record (df df' : DataFrame) (ncbi : NCBITaxa)
    (before after : list (list cell)) (r : list cell)
    (lines : list string) (t : list event) :
  columns df' = columns df →
  values df = before ++ after → values df' = before ++ r :: after → r ∈ before →
  create_nodes_dump df ncbi = Ok (lines, t) →
  ∃ t', create_nodes_dump df' ncbi = Ok (lines, t').
Proof.
  intros Hc Hv Hv' Hr (Hres & -> & _)%create_nodes_dump_Ok.
  set (walk := λ cells, steps_of {| labels := columns df; cells := cells |}
                                 (available_ranks df) (Str "root")).
  assert (Hsteps : ∀ d vals, columns d = columns df → values d = vals →
            all_steps d = flat_map walk vals).
  { intros d vals Hd <-. unfold all_steps, available_ranks, rows. rewrite Hd.
    induction (values d) as [|c cs IH]; [done|]. cbn [map flat_map]. by rewrite IH. }
  rewrite (Hsteps df _ eq_refl Hv) in Hres.
  assert (Hsub : ∀ s, s ∈ walk r → s ∈ flat_map walk before).
  { intros s Hs. apply list_elem_of_In, in_flat_map. exists r.
    split; by apply list_elem_of_In. }
  assert (Hall : all_steps df' = flat_map walk before ++ walk r ++ flat_map walk after).
  { rewrite (Hsteps df' _ Hc Hv'), flat_map_app. done. }
  assert (Hwritten : written_steps df' ncbi = written_steps df ncbi).
  { unfold written_steps. rewrite Hall, (Hsteps df _ eq_refl Hv), flat_map_app.
    rewrite !fresh_steps_app. rewrite (fresh_steps_nil ncbi _ (walk r)); last first.
    { intros s Hs%Hsub. apply elem_of_union_r, elem_of_list_to_set.
      apply list_elem_of_fmap. by exists s. }
    cbn [app]. do 2 f_equal.
    assert (list_to_set (map (pair_of ncbi) (walk r))
            ⊆@{gset (cell * cell)} list_to_set (map (pair_of ncbi) (flat_map walk before))).
    { intros p (s & -> & Hs%Hsub)%elem_of_list_to_set%list_elem_of_fmap.
      apply elem_of_list_to_set, list_elem_of_fmap. by exists s. }
    set_solver. }
  rewrite <- Hwritten. apply create_nodes_dump_total. rewrite Hall.
  rewrite flat_map_app in Hres. apply Forall_app in Hres as [Hb Ha].
  rewrite !Forall_app. split; [done|]. split; [|done].
  rewrite Forall_forall in Hb. apply Forall_forall. intros s Hs%Hsub. by apply Hb.
Qed.

(** * What reaches the resolver *)

Lemma process_all_calls ncbi steps st st' t q :
  foldM (process ncbi) st steps = Ok (st', t) → q ∈ calls t →
  ∃ s, s ∈ steps ∧ q ∈ step_calls s.
Proof.
  revert st t. induction steps as [|s steps IH]; intros st t H Hq.
  - apply ret_Ok_inv in H as [_ ->]. by apply elem_of_nil in Hq.
  - rewrite foldM_cons in H. apply bind_Ok_inv in H as (st1 & t1 & t2 & Hs & H & ->).
    apply process_Ok in Hs as (_ & _ & Hc).
    rewrite calls_app, Hc in Hq. apply elem_of_app in Hq as [Hq|Hq].
    + exists s. split; [by left|].
      apply elem_of_app in Hq as [Hq|Hq]; [done|].
      destruct (decide (pair_of ncbi s ∈ st.2)); [by apply elem_of_nil in Hq|done].
    + destruct (IH _ _ H Hq) as (s' & Hs' & Hq'). exists s'. split; [by right|done].
Qed.

Lemma all_steps_text df s q :
  s ∈ all_steps df → q ∈ step_calls s → ∃ name, q = [Str name].
Proof.
  intros (row & _ & _ & _ & [c Hc]%notna_Str & Hp)%all_steps_spec Hq.
  unfold step_calls in Hq. apply elem_of_cons in Hq as [->|Hq].
  - exists c. by rewrite Hc.
  - destruct (py_ne s.1.2 (Str "root")); [|by apply elem_of_nil in Hq].
    apply list_elem_of_singleton in Hq as ->.
    destruct Hp as [->|(rank & _ & -> & [p ->]%notna_Str)]; by eexists.
Qed.

(** X7. The nodes emitter asks the resolver about text only, one name at a
    time; a null cell never reaches the resolver. The names emitter does
    the same on a frame whose records have a value under every rank. *)
Theorem resolver_asked_about_text (df : DataFrame) (ncbi : NCBITaxa)
    (lines : list string) (t : list event) :
  (create_nodes_dump df ncbi = Ok (lines, t) →
   ∀ q, q ∈ calls t → ∃ name, q = [Str name]) ∧
  (complete df → create_names_dump df ncbi = Ok (lines, t) →
   ∀ q, q ∈ calls t → ∃ name, q = [Str name]).
Proof.
  split.
  - rewrite create_nodes_dump_eq. intros H q Hq.
    apply bind_Ok_inv in H as (st & t1 & t2 & Hst & H & ->).
    apply ret_Ok_inv in H as [_ ->]. rewrite app_nil_r in Hq.
    destruct (process_all_calls _ _ _ _ _ _ Hst Hq) as (s & Hs & Hqs).
    by eapply all_steps_text.
  - intros Hdf (_ & _ & _ & _ & Hc)%create_names_dump_Ok q Hq.
    rewrite Hc in Hq. apply list_elem_of_fmap in Hq as (c & -> & Hin).
    apply emitted_cells_from_rows in Hin as (row & Hrow & Hl & ->).
    destruct (notna_Str _ (Hdf row c.1 Hrow Hl)) as [name ->]. by exists name.
Qed.

(** X8. A null cell under one of the seven ranks always reaches the
    resolver in the names pass: a run that ends well has asked about a null
    value, and with a resolver that raises on null names the names emitter
    raises on every such frame. *)
Theorem names_dump_null_cell (df : DataFrame) (ncbi : NCBITaxa)
    (row : Series) (level : string) :
  row ∈ rows df → level ∈ rank_order → isnull (cell_of row level) = true →
  (∀ lines t, create_names_dump df ncbi = Ok (lines, t) →
     [cell_of row level] ∈ calls t) ∧
  ((∀ v, isnull v = true → ∃ e, get_name_translator ncbi [v] = Err e) →
   ∃ e, create_names_dump df ncbi = Err e).
Proof.
  intros Hrow Hl Hnull.
  assert (Hasked : ∀ lines t, create_names_dump df ncbi = Ok (lines, t) →
            [cell_of row level] ∈ calls t ∧ is_Ok (tax_id ncbi (cell_of row level))).
  { intros lines t (_ & _ & Hids & _ & Hc)%create_names_dump_Ok.
    pose proof (emitted_cells_cover df row level Hrow Hl) as Hin. split.
    - rewrite Hc. apply list_elem_of_fmap. by exists (level, cell_of row level).
    - rewrite Forall_forall in Hids. apply (Hids _ Hin). }
  split; [intros lines t H; by apply Hasked in H as [H _]|].
  intros Hraise. destruct (create_names_dump df ncbi) as [[lines t]|e] eqn:Hrun;
    [|by exists e].
  destruct (Hasked lines t eq_refl) as [_ [v Hv]].
  destruct (Hraise _ Hnull) as [e He]. unfold tax_id in Hv. by rewrite He in Hv.
Qed.

(** * Names and nodes of a complete frame *)

Lemma steps_of_complete row ranks parent rank :
  (∀ rank, rank ∈ ranks → notna (cell_of row rank) = true) → rank ∈ ranks →
  ∃ p, (cell_of row rank, p, rank) ∈ steps_of row ranks parent.
Proof.
  revert parent. induction ranks as [|r ranks IH]; intros parent Hall Hin.
  - by apply elem_of_nil in Hin.
  - cbn [steps_of]. rewrite Hall by by left.
    apply elem_of_cons in Hin as [->|Hin].
    + exists parent. by left.
    + destruct (IH (cell_of row r)) as [p Hp]; [|done|].
      * intros rank' Hr'. apply Hall. by right.
      * exists p. by right.
Qed.

Lemma available_ranks_all df : rank_order ⊆ columns df → available_ranks df = rank_order.
Proof.
  intros Hsub. unfold available_ranks.
  induction rank_order as [|r rs IH]; [done|].
  rewrite filter_cons_True by (apply Hsub; by left).
  f_equal. apply IH. intros x Hx. apply Hsub. by right.
Qed.

(** X9. On a frame whose records have a value under every rank, the names
    stream names nodes only: the identifier of every names line is the
    child identifier of a line of the nodes stream. *)
Theorem names_ids_are_nodes (df : DataFrame) (ncbi : NCBITaxa)
    (names nodes : list string) (t1 t2 : list event) :
  complete df →
  create_names_dump df ncbi = Ok (names, t1) →
  create_nodes_dump df ncbi = Ok (nodes, t2) →
  names = names_line "1" "root" ::
          map (λ c, names_line (py_str (the_id ncbi c.2)) (names_entry c.1 c.2))
              (emitted_cells df) ∧
  (∃ parent_id rank, nodes_line "1" parent_id rank ∈ nodes) ∧
  ∀ c, c ∈ emitted_cells df →
    ∃ parent_id rank, nodes_line (py_str (the_id ncbi c.2)) parent_id rank ∈ nodes.
Proof.
  intros Hdf (_ & Hcols & _ & -> & _)%create_names_dump_Ok
             (_ & -> & _)%create_nodes_dump_Ok.
  split; [done|]. split; [exists "1", "no rank"; by left|].
  intros c (row & Hrow & Hl & Hc)%emitted_cells_from_rows.
  destruct (steps_of_complete row (available_ranks df) (Str "root") c.1) as [p Hp].
  { intros rank Hr. apply Hdf; [done|]. by apply (available_ranks_order df). }
  { by rewrite available_ranks_all. }
  set (s := (cell_of row c.1, p, c.1)) in *.
  assert (Hs : s ∈ all_steps df).
  { unfold all_steps. apply list_elem_of_In, in_flat_map. exists row.
    split; by apply list_elem_of_In. }
  assert (Hpair : id_pair ncbi s ∈ written_pairs df ncbi).
  { apply written_pairs_spec. right. by exists s. }
  unfold written_pairs in Hpair. apply elem_of_cons in Hpair as [Hpair|Hpair].
  - exists "1", "no rank". unfold id_pair, s in Hpair. cbn [fst snd] in Hpair.
    assert (Hchild : py_str (the_id ncbi c.2) = "1") by (rewrite Hc; congruence).
    rewrite Hchild. by left.
  - apply list_elem_of_fmap in Hpair as (s' & Heq & Hs').
    exists (id_pair ncbi s').2, (formatted s'.2). right.
    apply list_elem_of_fmap. exists s'. split; [|done].
    unfold nodes_line_of. rewrite <- Heq. unfold id_pair. cbn [fst snd]. by rewrite Hc.
Qed.

(** * What the emitters read *)

Lemma foldM_ext {S X} (body body' : S → X → M S) s xs :
  (∀ s x, x ∈ xs → body s x = body' s x) → foldM body s xs = foldM body' s xs.
Proof.
  revert s. induction xs as [|x xs IH]; intros s Hb; [done|].
  rewrite !foldM_cons, Hb by by left. apply bind_ext. intros s'.
  apply IH. intros s'' x' Hx'. apply Hb. by right.
Qed.

Lemma foldM_Forall2 {S X} (R : X → X → Prop) (body body' : S → X → M S) s xs xs' :
  Forall2 R xs xs' → (∀ s x x', R x x' → body s x = body' s x') →
  foldM body s xs = foldM body' s xs'.
Proof.
  intros Hxs Hb. revert s. induction Hxs as [|x x' xs xs' Hx _ IH]; intros s; [done|].
  rewrite !foldM_cons, (Hb s x x' Hx). apply bind_ext. intros s'. apply IH.
Qed.

Lemma names_first_same ncbi row row' lines :
  same_ranks row row' → names_first ncbi row lines = names_first ncbi row' lines.
Proof.
  intros Hr. unfold names_first. apply foldM_ext. intros ls level Hl.
  by rewrite (Hr level Hl).
Qed.

Lemma names_next_same ncbi previous previous' row row' lines :
  same_ranks previous previous' → same_ranks row row' →
  names_next ncbi previous row lines = names_next ncbi previous' row' lines.
Proof.
  intros Hp Hr. unfold names_next. apply foldM_ext. intros ls level Hl.
  by rewrite (Hr level Hl), (Hp level Hl).
Qed.

Lemma names_later_same ncbi later later' previous previous' lines :
  Forall2 same_ranks later later' → same_ranks previous previous' →
  (st ← foldM (λ (st : list string * Series) row,
          lines ← names_next ncbi st.2 row st.1; ret (lines, row))
        (lines, previous) later; ret st.1)
  = (st ← foldM (λ (st : list string * Series) row,
          lines ← names_next ncbi st.2 row st.1; ret (lines, row))
        (lines, previous') later'; ret st.1).
Proof.
  intros Hl. revert previous previous' lines.
  induction Hl as [|row row' later later' Hrow _ IH]; intros previous previous' lines Hp.
  - by rewrite !foldM_nil, !bind_ret.
  - rewrite !foldM_cons. cbv beta. cbn [fst snd].
    rewrite (names_next_same ncbi previous previous' row row' lines Hp Hrow).
    rewrite !bind_assoc. apply bind_ext. intros lines1.
    rewrite !bind_ret. by apply IH.
Qed.

Lemma nodes_walk_same ncbi row row' ranks parent st :
  (∀ rank, rank ∈ ranks → series_get row rank = series_get row' rank) →
  nodes_walk ncbi row ranks parent st = nodes_walk ncbi row' ranks parent st.
Proof.
  revert parent st. induction ranks as [|rank ranks IH]; intros parent st Hr; [done|].
  rewrite !nodes_walk_unfold, Hr by by left.
  apply bind_ext. intros child. destruct (notna child); [|done].
  apply bind_ext. intros child_id. apply bind_ext. intros parent_id.
  apply bind_ext. intros st'. apply IH. intros rank' Hin. apply Hr. by right.
Qed.

Lemma series_get_in row level : level ∈ labels row ↔ is_Ok (series_get row level).
Proof.
  split.
  - intros Hin. rewrite series_get_Ok by done. by eexists.
  - intros [v Hv]. destruct (decide (level ∈ labels row)) as [|Hn]; [done|].
    by rewrite series_get_Err in Hv.
Qed.

Lemma available_ranks_same df df' row row' :
  row ∈ rows df → row' ∈ rows df' → same_ranks row row' →
  available_ranks df = available_ranks df'.
Proof.
  intros Hrow Hrow' Hsame.
  pose proof (rows_labels df) as Hl. pose proof (rows_labels df') as Hl'.
  rewrite Forall_forall in Hl. rewrite Forall_forall in Hl'.
  unfold available_ranks. rewrite <- (Hl row Hrow), <- (Hl' row' Hrow').
  unfold same_ranks in Hsame.
  induction rank_order as [|r rs IH]; [done|].
  assert (Hiff : r ∈ labels row ↔ r ∈ labels row').
  { rewrite !series_get_in, Hsame by by left. done. }
  assert (Hrest : filter (λ rank, rank ∈ labels row) rs
                  = filter (λ rank, rank ∈ labels row') rs).
  { apply IH. intros level Hin. apply Hsame. by right. }
  destruct (decide (r ∈ labels row)) as [Hin|Hin].
  - rewrite !filter_cons_True by tauto. by rewrite Hrest.
  - rewrite !filter_cons_False by tauto. done.
Qed.

(** X10. The emitters read nothing of a record but its cells under the
    seven rank labels: on two frames with as many records, whose records
    hold the same under each of the seven labels (or lack the same labels),
    each emitter does the same — the same lines and the same questions to
    the resolver, or the same exception — whatever other columns the frames
    have. *)
Theorem emitters_read_ranks_only (df df' : DataFrame) (ncbi : NCBITaxa) :
  Forall2 same_ranks (rows df) (rows df') →
  create_names_dump df ncbi = create_names_dump df' ncbi ∧
  create_nodes_dump df ncbi = create_nodes_dump df' ncbi.
Proof.
  intros Hrows. split.
  - unfold create_names_dump, iloc0.
    destruct Hrows as [|row row' later later' Hrow Hlater]; [done|].
    rewrite !bind_lift_Ok. cbn [drop].
    rewrite (names_first_same ncbi row row' _ Hrow).
    apply bind_ext. intros lines. by apply names_later_same.
  - unfold create_nodes_dump.
    destruct (rows df) as [|row later] eqn:Hdf;
      destruct (rows df') as [|row' later'] eqn:Hdf'; try by inversion Hrows.
    assert (Hav : available_ranks df = available_ranks df').
    { apply Forall2_cons in Hrows as [Hrow _].
      apply (available_ranks_same df df' row row'); [rewrite Hdf|rewrite Hdf'|done];
        by left. }
    rewrite Hav. f_equal.
    apply (foldM_Forall2 same_ranks); [done|].
    intros st r r' Hr. apply nodes_walk_same. intros rank Hin. apply Hr.
    by apply (available_ranks_order df').
Qed.

Lemma changed_cells_self row :
  (∀ level, level ∈ rank_order → cell_of row level ≠ NaN) → changed_cells row row = [].
Proof.
  intros Hrow. unfold changed_cells.
  induction rank_order as [|r rs IH]; [done|].
  rewrite filter_cons_False.
  - apply IH. intros level Hl. apply Hrow. by right.
  - assert (Hr : cell_of row r ≠ NaN) by (apply Hrow; by left).
    destruct (cell_of row r); simpl; [|done|done].
    by rewrite bool_decide_eq_true_2.
Qed.

Lemma later_cells_copy previous xs row ys :
  changed_cells row row = [] →
  later_cells previous (xs ++ row :: row :: ys) = later_cells previous (xs ++ row :: ys).
Proof.
  intros Hrow. revert previous. induction xs as [|x xs IH]; intros previous.
  - cbn [app later_cells]. by rewrite Hrow.
  - cbn [app later_cells]. by rewrite IH.
Qed.

(** X11. A record that follows its own copy gets no names line: when a
    record with a name under each of the seven ranks is put in once more
    right after itself, the names emitter writes the same lines and asks
    the resolver the same questions. *)
Theorem names_dump_adjacent_copy (df df' : DataFrame) (ncbi : NCBITaxa)
    (before after : list (list cell)) (r : list cell)
    (lines : list string) (t : list event) :
  columns df' = columns df →
  values df = before ++ r :: after → values df' = before ++ r :: r :: after →
  (∀ level, level ∈ rank_order →
            notna (cell_of {| labels := columns df; cells := r |} level) = true) →
  create_names_dump df ncbi = Ok (lines, t) →
  create_names_dump df' ncbi = Ok (lines, t).
Proof.
  intros Hc Hv Hv' Hname Hrun.
  assert (Hr : ∀ level, level ∈ rank_order →
                 cell_of {| labels := columns df; cells := r |} level ≠ NaN).
  { intros level Hl Hnan. specialize (Hname level Hl). by rewrite Hnan in Hname. }
  pose proof Hrun as (_ & Hcols & _)%create_names_dump_Ok.
  assert (Hcells : emitted_cells df' = emitted_cells df).
  { unfold emitted_cells, rows. rewrite Hc, Hv, Hv'.
    set (mk := λ cells, {| labels := columns df; cells := cells |}).
    pose proof (changed_cells_self (mk r) Hr) as Hself.
    rewrite !map_app. cbn [map].
    destruct (map mk before) as [|b bs].
    - cbn [app later_cells]. by rewrite Hself.
    - cbn [app]. f_equal. by apply later_cells_copy. }
  rewrite create_names_dump_eq in Hrun; [|by unfold rows; rewrite Hv; destruct before|done].
  rewrite create_names_dump_eq; [|by unfold rows; rewrite Hv'; destruct before|by rewrite Hc].
  by rewrite Hcells.
Qed.

(** * Imputation and the walks *)

Lemma index_of_lt label ls i : index_of label ls = Some i → (i < length ls)%nat.
Proof.
  revert i. induction ls as [|l ls IH]; intros i; [done|].
  simpl. case_decide; [intros [= <-]; lia|].
  destruct (index_of label ls) as [j|]; [|done].
  intros [= <-]. specialize (IH j eq_refl). lia.
Qed.

Lemma cell_of_in_row row label :
  label ∈ labels row → length (cells row) = length (labels row) →
  cell_of row label ∈ cells row.
Proof.
  intros Hin Hlen. unfold cell_of, series_get.
  destruct (index_of label (labels row)) as [i|] eqn:Hi.
  - apply index_of_lt in Hi. rewrite <- Hlen in Hi.
    apply lookup_lt_is_Some_2 in Hi as [v Hv]. rewrite Hv. simpl.
    by eapply list_elem_of_lookup_2.
  - by apply index_of_None in Hi.
Qed.

Lemma steps_of_length row ranks parent :
  (∀ rank, rank ∈ ranks → notna (cell_of row rank) = true) →
  length (steps_of row ranks parent) = length ranks.
Proof.
  revert parent. induction ranks as [|r ranks IH]; intros parent Hall; [done|].
  cbn [steps_of]. rewrite Hall by by left. cbn [length]. f_equal.
  apply IH. intros rank Hin. apply Hall. by right.
Qed.

Lemma all_steps_length df :
  (∀ row rank, row ∈ rows df → rank ∈ columns df → notna (cell_of row rank) = true) →
  length (all_steps df) = (length (rows df) * length (available_ranks df))%nat.
Proof.
  intros Hdf. unfold all_steps.
  induction (rows df) as [|row rs IH]; [done|].
  cbn [flat_map length]. rewrite length_app, IH.
  - rewrite steps_of_length; [simpl; lia|].
    intros rank Hin. apply Hdf; [by left|].
    pose proof (available_ranks_columns df) as Hc. rewrite Forall_forall in Hc. by apply Hc.
  - intros row' rank Hin. apply Hdf. by right.
Qed.

Lemma imputed_rectangular df : rectangular df → rectangular (imputed df).
Proof.
  unfold rectangular. intros Hdf.
  assert (Hlen : length <$> values (imputed df) = length <$> values df).
  { unfold imputed. simpl.
    change (map length (fill_rows 1 (map (map (replace_cell "unknown_rank_name" PyNone))
                                         (values df))) = map length (values df)).
    rewrite length_fill_rows, <- list_fmap_compose.
    apply list_fmap_ext. intros _ row _. simpl. apply length_map. }
  apply Forall_forall. intros row' [r Hr']%list_elem_of_lookup.
  assert (Hl : (length <$> values (imputed df)) !! r = Some (length row')).
  { by rewrite list_lookup_fmap, Hr'. }
  rewrite Hlen, list_lookup_fmap in Hl.
  destruct (values df !! r) as [row|] eqn:Hr; [|done].
  injection Hl as <-. rewrite Forall_forall in Hdf.
  apply Hdf. by eapply list_elem_of_lookup_2.
Qed.

Lemma imputed_no_gap df row rank :
  rectangular df → row ∈ rows (imputed df) → rank ∈ columns (imputed df) →
  notna (cell_of row rank) = true.
Proof.
  intros Hrect%imputed_rectangular Hrow Hrank.
  unfold rows in Hrow. apply list_elem_of_fmap in Hrow as (cs & -> & Hcs).
  assert (Hin : cell_of {| labels := columns (imputed df); cells := cs |} rank ∈ cs).
  { apply (cell_of_in_row {| labels := columns (imputed df); cells := cs |}); [done|].
    unfold rectangular in Hrect. rewrite Forall_forall in Hrect. by apply Hrect. }
  apply list_elem_of_lookup in Hcs as [r Hr]. apply list_elem_of_lookup in Hin as [c Hc].
  assert (Hcell : cell_at (imputed df) r c
                  = Some (cell_of {| labels := columns (imputed df); cells := cs |} rank)).
  { unfold cell_at. by rewrite Hr. }
  apply imputed_not_missing in Hcell. unfold missing in Hcell.
  apply orb_false_iff in Hcell as [Hnull _]. unfold notna. by rewrite Hnull.
Qed.

(** X12. Imputation closes every gap: in the frame [impute_taxons] returns
    for a rectangular frame, every record has a value under every column,
    so no walk of the nodes emitter stops early and each record gives one
    step for each rank column of the frame. It returns a frame whenever no
    missing cell lies in a [float64] column. *)
Theorem impute_taxons_closes_gaps (h : gmap nat TypedFrame) (taxon_df : nat)
    (d : TypedFrame) :
  h !! taxon_df = Some d → takes_text d → rectangular (frame d) →
  ∃ out h' d',
    Typed.impute_taxons taxon_df h = Some (Ok out, h') ∧ h' !! out = Some d' ∧
    (∀ row rank, row ∈ rows (frame d') → rank ∈ columns (frame d') →
                 notna (cell_of row rank) = true) ∧
    (∀ row, row ∈ rows (frame d') →
       length (steps_of row (available_ranks (frame d')) (Str "root"))
       = length (available_ranks (frame d'))) ∧
    length (all_steps (frame d'))
    = (length (rows (frame d')) * length (available_ranks (frame d')))%nat.
Proof.
  intros Hl Ht Hrect. pose proof (typed_run_returns h taxon_df d Hl Ht) as Hrun.
  simpl in Hrun. eexists _, _, (with_values d (values (imputed (frame d)))).
  split; [exact Hrun|]. split; [apply lookup_insert_eq|].
  change (frame (with_values d (values (imputed (frame d))))) with (imputed (frame d)).
  assert (Hgap : ∀ row rank, row ∈ rows (imputed (frame d)) →
                   rank ∈ columns (imputed (frame d)) →
                   notna (cell_of row rank) = true).
  { intros row rank. by apply imputed_no_gap. }
  split; [exact Hgap|]. split; [|by apply all_steps_length].
  intros row Hrow. apply steps_of_length. intros rank Hin. apply Hgap; [done|].
  pose proof (available_ranks_columns (imputed (frame d))) as Hc.
  rewrite Forall_forall in Hc. by apply Hc.
Qed.

(** * The driver *)

Lemma and_then_Ok {A B} (r : result A) (k : A → result B) b :
  and_then r k = Ok b → ∃ a, r = Ok a ∧ k a = Ok b.
Proof. destruct r as [a|e]; [|done]. intros H. by exists a. Qed.

Lemma map_result_length {X Y} (f : X → result Y) xs ys :
  map_result f xs = Ok ys → length ys = length xs.
Proof.
  revert ys. induction xs as [|x xs IH]; intros ys; [by intros [= <-]|].
  simpl. intros (y & _ & (ys' & Hys & [= <-])%and_then_Ok)%and_then_Ok.
  simpl. by rewrite (IH _ Hys).
Qed.

Lemma index_of_lookup label ls i : index_of label ls = Some i → ls !! i = Some label.
Proof.
  revert i. induction ls as [|l ls IH]; intros i; [done|].
  simpl. case_decide as Hl; [by intros [= <-]; subst|].
  destruct (index_of label ls) as [j|]; [|done].
  intros [= <-]. by apply IH.
Qed.

Lemma index_of_Some label ls : label ∈ ls → ∃ i, index_of label ls = Some i.
Proof.
  intros Hin. destruct (index_of label ls) as [i|] eqn:Hi; [by exists i|].
  by apply index_of_None in Hi.
Qed.

Lemma dict_get_Some (col : string) (d : list (string * string)) :
  has_key col d ↔ col ∈ map fst d.
Proof.
  unfold has_key. induction d as [|[k v] d IH]; simpl.
  - split; [by intros [? ?]|by intros ?%elem_of_nil].
  - case_decide as Hk.
    + subst. split; [intros _; by left|by eexists].
    + rewrite IH, elem_of_cons. split; [by right|by intros [?|?]].
Qed.

Lemma first_seen_spec seen keys x :
  x ∈ first_seen seen keys ↔ x ∈ keys ∧ x ∉ seen.
Proof.
  revert seen. induction keys as [|k keys IH]; intros seen; simpl.
  - split; [by intros ?%elem_of_nil|by intros [?%elem_of_nil _]].
  - case_decide as Hk.
    + rewrite IH, elem_of_cons. split; [intros [? ?]; by split; [right|]|].
      intros [[->|?] Hn]; [done|by split].
    + rewrite !elem_of_cons, IH, not_elem_of_cons. split.
      * intros [->|[? [? ?]]]; [by split; [left|]|by split; [right|]].
      * intros [[->|?] Hn]; [by left|].
        destruct (decide (x = k)) as [->|Hne]; [by left|right; by split].
Qed.

Lemma frame_keys dflist col :
  col ∈ columns (DataFrame_of dflist) ↔ Exists (has_key col) dflist.
Proof.
  unfold DataFrame_of. simpl. rewrite first_seen_spec, Exists_exists.
  split.
  - intros [Hin _]. apply list_elem_of_In, in_concat in Hin as (ks & Hks & Hin).
    apply list_elem_of_In, list_elem_of_fmap in Hks as (d & -> & Hd).
    exists d. split; [done|]. apply dict_get_Some. by apply list_elem_of_In.
  - intros (d & Hd & Hk). split; [|apply not_elem_of_nil].
    apply list_elem_of_In, in_concat. exists (map fst d). split.
    + apply list_elem_of_In, list_elem_of_fmap. by exists d.
    + apply list_elem_of_In. by apply dict_get_Some.
Qed.

Lemma select_positions (cols all : list string) :
  cols ⊆ all →
  ∃ positions,
    map_result (λ col, match index_of col all with
                       | Some i => Ok i
                       | None => Err (KeyError col)
                       end) cols = Ok positions ∧
    Forall2 (λ i col, all !! i = Some col) positions cols.
Proof.
  induction cols as [|col cols IH]; intros Hsub; [by exists []|].
  destruct IH as (ps & Hps & Hall); [intros x Hx; apply Hsub; by right|].
  destruct (index_of_Some col all) as [i Hi]; [apply Hsub; by left|].
  exists (i :: ps). simpl. rewrite Hi. simpl. rewrite Hps. simpl.
  split; [done|]. constructor; [by apply index_of_lookup|done].
Qed.

(** The frame that [pd.DataFrame] and the choice of the columns make of
    the dictionaries. *)
Lemma df_getitem_frame dflist :
  df_getitem (filter (λ col, col ∈ columns (DataFrame_of dflist)) RANK_ORDER)
             (DataFrame_of dflist)
  = Ok (frame_of_records dflist).
Proof.
  assert (Hcols : filter (λ col, col ∈ columns (DataFrame_of dflist)) RANK_ORDER
                  = filter (λ col, Exists (has_key col) dflist) RANK_ORDER).
  { apply list_filter_iff. intros col. apply frame_keys. }
  rewrite Hcols. unfold df_getitem, frame_of_records.
  set (cols := filter (λ col, Exists (has_key col) dflist) RANK_ORDER).
  destruct (select_positions cols (columns (DataFrame_of dflist))) as (ps & -> & Hps).
  { intros col [Hk _]%list_elem_of_filter. by apply frame_keys. }
  simpl. do 2 f_equal. rewrite map_map. apply map_ext. intros d.
  change (columns (DataFrame_of dflist))
    with (first_seen [] (concat (map (map fst) dflist))) in Hps.
  set (all := first_seen [] (concat (map (map fst) dflist))) in *.
  clear Hcols. induction Hps as [|i col ps cs Hi _ IH]; [done|].
  simpl. rewrite IH. f_equal.
  change (map ?f all) with (f <$> all). by rewrite list_lookup_fmap, Hi.
Qed.

Lemma lineage_loop_length ncbi tax_ids dflist out :
  lineage_loop ncbi tax_ids dflist = Ok out →
  (length out ≤ length dflist + length tax_ids)%nat.
Proof.
  revert dflist. induction tax_ids as [|tax_id tax_ids IH]; intros dflist.
  - intros [= <-]. simpl. lia.
  - simpl. destruct (rank_to_name ncbi tax_id) as [d|e].
    + intros H%IH. rewrite length_app in H. simpl in H. lia.
    + intros (_ & _ & H%IH)%and_then_Ok. lia.
Qed.

(** What a call of [get_taxonomy_data] that returns a frame has done. *)
Lemma get_taxonomy_data_Some speciesList ncbi_instance ncbi df :
  get_taxonomy_data speciesList ncbi_instance ncbi = Ok (Some df) →
  ∃ dflist, dflist ≠ [] ∧ lineage_records speciesList ncbi_instance ncbi dflist ∧
            df = frame_of_records dflist.
Proof.
  unfold get_taxonomy_data.
  intros (tax_ids_dict & Hnames & H)%and_then_Ok.
  destruct tax_ids_dict as [|item tax_ids_dict]; [done|].
  apply and_then_Ok in H as (tax_ids & Hids & H).
  apply and_then_Ok in H as (dflist & Hloop & H).
  destruct dflist as [|d dflist]; [done|].
  cbv zeta in H. rewrite df_getitem_frame in H. simpl in H. injection H as <-.
  exists (d :: dflist). split; [done|]. split; [|done].
  exists (item :: tax_ids_dict), tax_ids. split_and!; [done..|].
  apply lineage_loop_length in Hloop. apply map_result_length in Hids.
  simpl in *. lia.
Qed.

Lemma RANK_ORDER_NoDup : NoDup RANK_ORDER.
Proof. by apply (bool_decide_unpack _). Qed.


(** X14. A frame that [get_taxonomy_data] returns has its columns in the
    order of [RANK_ORDER], no label twice and none from elsewhere, at least
    one record, as many cells in each record as it has columns, and text or
    [nan] in every cell. *)
Theorem get_taxonomy_data_frame (speciesList : list string)
    (ncbi_instance : NCBITaxa) (ncbi : Lineages) (df : DataFrame) :
  get_taxonomy_data speciesList ncbi_instance ncbi = Ok (Some df) →
  columns df `sublist_of` RANK_ORDER ∧ NoDup (columns df) ∧
  values df ≠ [] ∧ rectangular df ∧
  ∀ r c v, cell_at df r c = Some v → v = NaN ∨ ∃ name, v = Str name.
Proof.
  intros (dflist & Hne & _ & ->)%get_taxonomy_data_Some.
  assert (Hsub : columns (frame_of_records dflist) `sublist_of` RANK_ORDER)
    by apply sublist_filter.
  split; [done|]. split; [exact (sublist_NoDup _ _ RANK_ORDER_NoDup Hsub)|].
  split; [by destruct dflist|]. split.
  - unfold rectangular. apply Forall_forall.
    intros r (d & -> & _)%list_elem_of_fmap. apply length_map.
  - unfold cell_at. intros r c v Hv.
    destruct (values (frame_of_records dflist) !! r) as [row|] eqn:Hr; [simpl in Hv|done].
    apply list_elem_of_lookup_2, list_elem_of_fmap in Hr as (d & -> & _).
    apply list_elem_of_lookup_2, list_elem_of_fmap in Hv as (col & -> & _).
    destruct (dict_get col d); [right; by eexists|by left].
Qed.

(** ** Dictionaries built by assignment *)









(** ** The dictionary of a lineage *)






Lemma create_names_dump_Ok_iff df ncbi :
  (∃ lines t, create_names_dump df ncbi = Ok (lines, t)) ↔
  values df ≠ [] ∧ rank_order ⊆ columns df ∧
  ∀ row level, row ∈ rows df → level ∈ rank_order →
               is_Ok (tax_id ncbi (cell_of row level)).
Proof.
  split.
  - intros (lines & t & (Hv & Hc & Hids & _)%create_names_dump_Ok).
    split; [done|]. split; [done|]. intros row level Hrow Hl.
    rewrite Forall_forall in Hids.
    apply (Hids (level, cell_of row level)). by apply emitted_cells_cover.
  - intros (Hv & Hc & Hids).
    destruct (create_names_dump_total df ncbi Hv Hc) as [t Ht]; [|by eexists _, _].
    apply Forall_forall. intros c (row & Hrow & Hl & ->)%emitted_cells_from_rows.
    by apply Hids.
Qed.

Lemma rows_Permutation df df' :
  columns df' = columns df → values df ≡ₚ values df' → rows df ≡ₚ rows df'.
Proof. intros Hc Hv. unfold rows. rewrite Hc. by apply Permutation_map. Qed.

(** The frames that have the same records in another order: the streams
    have the same pairs, and the emitters end well on the one exactly when
    they do on the other. *)
Lemma row_order_streams df df' ncbi :
  columns df' = columns df → values df ≡ₚ values df' →
  written_pairs df ncbi ≡ₚ written_pairs df' ncbi ∧
  ((∃ lines t, create_nodes_dump df ncbi = Ok (lines, t)) ↔
   (∃ lines t, create_nodes_dump df' ncbi = Ok (lines, t))) ∧
  ((∃ lines t, create_names_dump df ncbi = Ok (lines, t)) ↔
   (∃ lines t, create_names_dump df' ncbi = Ok (lines, t))).
Proof.
  intros Hc Hv. pose proof (all_steps_Permutation df df' Hc Hv) as Hsteps.
  pose proof (rows_Permutation df df' Hc Hv) as Hrows. split_and!.
  - apply NoDup_Permutation; [apply written_pairs_NoDup..|].
    intros p. rewrite !written_pairs_spec.
    split; (intros [->|(s & Hs & <-)]; [by left|right; exists s; split; [|done]]).
    + by rewrite <- Hsteps.
    + by rewrite Hsteps.
  - rewrite !create_nodes_dump_Ok_iff. by rewrite Hsteps.
  - rewrite !create_names_dump_Ok_iff, Hc.
    assert (Hnil : values df ≠ [] ↔ values df' ≠ []).
    { split; intros Hn Heq; apply Hn.
      - rewrite Heq in Hv. by apply Permutation_nil_r in Hv.
      - rewrite Heq in Hv. by apply Permutation_nil_l in Hv. }
    rewrite Hnil. setoid_rewrite Hrows. done.
Qed.

(** X5. The order of the records does not decide which pairs a nodes
    stream has: two frames with the same header and the same records, in
    any order, give streams with the same (child identifier, parent
    identifier) pairs, as many lines, and the emitter ends well on the one
    exactly when it does on the other. *)
Theorem nodes_dump_row_order (df df' : DataFrame) (ncbi : NCBITaxa) :
  columns df' = columns df → values df ≡ₚ values df' →
  written_pairs df ncbi ≡ₚ written_pairs df' ncbi ∧
  ((∃ lines t, create_nodes_dump df ncbi = Ok (lines, t)) ↔
   (∃ lines t, create_nodes_dump df' ncbi = Ok (lines, t))).
Proof.
  intros Hc Hv. destruct (row_order_streams df df' ncbi Hc Hv) as (Hp & Hn & _).
  by split.
Qed.

Lemma sort_taxonomy_data_same sort_values df :
  reorders sort_values →
  columns (sort_taxonomy_data sort_values df) = columns df ∧
  values df ≡ₚ values (sort_taxonomy_data sort_values df).
Proof.
  intros Hsort. unfold sort_taxonomy_data.
  destruct (filter (λ col, col ∈ columns df) RANK_ORDER) as [|c cs]; [done|].
  destruct (sort_values (c :: cs) df) as [sorted|e] eqn:Hs; [|done].
  by apply (Hsort (c :: cs)).
Qed.

Lemma Permutation_not_nil {A} (l l' : list A) : l ≡ₚ l' → l ≠ [] → l' ≠ [].
Proof. intros Hp Hl ->. by apply Permutation_nil_r in Hp. Qed.

(** X13. Sorting does not decide whether the streams can be written, nor
    which pairs the nodes stream has: the frame [sort_taxonomy_data]
    returns — sorted, or the frame as it was when there is nothing to sort
    by or when sorting raises — has the header and the records of the frame
    it was given; each emitter ends well on it exactly when it does on the
    unsorted frame, and the nodes stream has the same pairs. *)
Theorem sort_taxonomy_data_keeps (sort_values : list string → DataFrame → result DataFrame)
    (df : DataFrame) (ncbi : NCBITaxa) :
  reorders sort_values →
  columns (sort_taxonomy_data sort_values df) = columns df ∧
  values df ≡ₚ values (sort_taxonomy_data sort_values df) ∧
  written_pairs df ncbi ≡ₚ written_pairs (sort_taxonomy_data sort_values df) ncbi ∧
  ((∃ lines t, create_nodes_dump df ncbi = Ok (lines, t)) ↔
   (∃ lines t, create_nodes_dump (sort_taxonomy_data sort_values df) ncbi = Ok (lines, t))) ∧
  ((∃ lines t, create_names_dump df ncbi = Ok (lines, t)) ↔
   (∃ lines t, create_names_dump (sort_taxonomy_data sort_values df) ncbi = Ok (lines, t))).
Proof.
  intros Hsort.
  destruct (sort_taxonomy_data_same sort_values df Hsort) as [Hc Hv].
  split; [done|]. split; [done|]. by apply row_order_streams.
Qed.

(** X16. Neither imputing nor sorting gives a frame a column: on a frame
    with a record and without a column for one of the seven ranks, the
    names emitter raises after sorting, and raises as well when the frame
    is imputed before it is sorted. *)
Theorem missing_rank_column_stays (h : gmap nat DataFrame) (taxon_df : nat)
    (df : DataFrame) (level : string)
    (sort_values : list string → DataFrame → result DataFrame) (ncbi : NCBITaxa) :
  h !! taxon_df = Some df → reorders sort_values →
  values df ≠ [] → level ∈ rank_order → level ∉ columns df →
  (∃ e, create_names_dump (sort_taxonomy_data sort_values df) ncbi = Err e) ∧
  ∃ out h' df',
    impute_taxons taxon_df h = Some (out, h') ∧ h' !! out = Some df' ∧
    ∃ e, create_names_dump (sort_taxonomy_data sort_values df') ncbi = Err e.
Proof.
  intros Hframe Hsort Hv Hl Hcol. split.
  - destruct (sort_taxonomy_data_same sort_values df Hsort) as [Hc Hp].
    apply (create_names_dump_missing_column _ _ level); [|done|by rewrite Hc].
    by eapply Permutation_not_nil.
  - eexists _, _, (imputed df). split; [by apply impute_taxons_run|].
    split; [apply lookup_insert_eq|].
    destruct (sort_taxonomy_data_same sort_values (imputed df) Hsort) as [Hc Hp].
    apply (create_names_dump_missing_column _ _ level); [|done|by rewrite Hc].
    eapply Permutation_not_nil; [exact Hp|].
    intros Hnil. apply (f_equal (map length)) in Hnil.
    unfold imputed in Hnil. cbn [values] in Hnil.
    rewrite length_fill_rows in Hnil. by destruct (values df).
Qed.

(** ** The further properties at the frames of the examples *)

Lemma complete_mammals : complete mammals.
Proof.
  assert (Hall : Forall (λ row, Forall (λ level, notna (cell_of row level) = true) rank_order)
                   (rows mammals)) by (apply (bool_decide_unpack _); vm_compute; exact I).
  intros row level Hrow Hlevel. rewrite Forall_forall in Hall.
  specialize (Hall row Hrow). rewrite Forall_forall in Hall. exact (Hall level Hlevel).
Qed.

Lemma impute_taxons_complete_witness :
  ∃ out h' d',
    Typed.impute_taxons 5 {[ 5%nat := gaps_typed ]} = Some (Ok out, h') ∧
    h' !! out = Some d' ∧
    ∀ r c v, cell_at (frame d') r c = Some v →
             isnull v = false ∧ v ≠ Str "unknown_rank_name".
Proof.
  apply (impute_taxons_complete {[ 5%nat := gaps_typed ]} 5 gaps_typed).
  - reflexivity.
  - intros r [|[|c]] v _ _ Hc; discriminate Hc.
Defined.

Lemma impute_taxons_nothing_to_do_witness :
  ∃ out h',
    impute_taxons 5 {[ 5%nat := one_cell ]} = Some (out, h') ∧ out ≠ 5%nat ∧
    h' !! out = Some one_cell.
Proof.
  apply (impute_taxons_nothing_to_do {[ 5%nat := one_cell ]} 5 one_cell).
  - reflexivity.
  - intros [|r] [|c] v Hv; vm_compute in Hv; try discriminate.
    injection Hv as <-. reflexivity.
Defined.

Lemma impute_taxons_twice_witness :
  ∃ out1 h1 out2 h2 d',
    Typed.impute_taxons 5 {[ 5%nat := gaps_typed ]} = Some (Ok out1, h1) ∧
    Typed.impute_taxons out1 h1 = Some (Ok out2, h2) ∧
    h1 !! out1 = Some d' ∧ h2 !! out1 = Some d' ∧ h2 !! out2 = Some d'.
Proof.
  apply (impute_taxons_twice {[ 5%nat := gaps_typed ]} 5 gaps_typed).
  - reflexivity.
  - intros r [|[|c]] v _ _ Hc; discriminate Hc.
Defined.

Lemma nodes_dump_parents_first_witness :
  ∃ lines t,
    create_nodes_dump mammals knows_some = Ok (lines, t) ∧
    ∀ i p, written_pairs mammals knows_some !! S i = Some p →
      ∃ j q, (j ≤ i)%nat ∧ written_pairs mammals knows_some !! j = Some q ∧ q.1 = p.2.
Proof.
  edestruct (nodes_dump_parents_first mammals knows_some) as (_ & Hparents);
    [vm_compute; reflexivity|].
  eexists _, _. split; [vm_compute; reflexivity|exact Hparents].
Defined.

Lemma nodes_dump_row_order_witness :
  written_pairs mammals knows_some ≡ₚ written_pairs mammals_turned knows_some ∧
  ((∃ lines t, create_nodes_dump mammals knows_some = Ok (lines, t)) ↔
   (∃ lines t, create_nodes_dump mammals_turned knows_some = Ok (lines, t))).
Proof.
  apply (nodes_dump_row_order mammals mammals_turned knows_some).
  - reflexivity.
  - apply (bool_decide_unpack _). vm_compute. exact I.
Defined.

Lemma nodes_dump_repeated_record_witness :
  ∃ lines t t',
    create_nodes_dump mammals knows_some = Ok (lines, t) ∧
    create_nodes_dump mammals_again knows_some = Ok (lines, t').
Proof.
  edestruct (nodes_dump_repeated_record mammals mammals_again knows_some
               (take 2 (values mammals)) (drop 2 (values mammals))
               [Str "Metazoa"; Str "Chordata"; Str "Mammalia"; Str "Carnivora";
                Str "Canidae"; Str "Canis"; Str "Canis lupus"])
    as [t' Hrun].
  - reflexivity.
  - reflexivity.
  - reflexivity.
  - apply (bool_decide_unpack _). vm_compute. exact I.
  - vm_compute. reflexivity.
  - eexists _, _, t'. split; [vm_compute; reflexivity|exact Hrun].
Defined.

Lemma resolver_asked_about_text_witness :
  (∃ lines t, create_nodes_dump mammals knows_some = Ok (lines, t) ∧
     ∀ q, q ∈ calls t → ∃ name, q = [Str name]) ∧
  (∃ lines t, create_names_dump mammals knows_some = Ok (lines, t) ∧
     ∀ q, q ∈ calls t → ∃ name, q = [Str name]).
Proof.
  split.
  - edestruct (resolver_asked_about_text mammals knows_some) as [Hnodes _].
    eexists _, _. split; [vm_compute; reflexivity|].
    eapply Hnodes. vm_compute. reflexivity.
  - edestruct (resolver_asked_about_text mammals knows_some) as [_ Hnames].
    eexists _, _. split; [vm_compute; reflexivity|].
    eapply Hnames; [exact complete_mammals|vm_compute; reflexivity].
Defined.

Lemma names_dump_null_cell_witness :
  (∃ lines t, create_names_dump gap_record knows_nothing = Ok (lines, t) ∧
              [NaN] ∈ calls t) ∧
  (∃ e, create_names_dump gap_record refuses_null = Err e).
Proof.
  split.
  - edestruct (names_dump_null_cell gap_record knows_nothing
                 {| labels := rank_order;
                    cells := [Str "A"; NaN; Str "B"; Str "C"; Str "D"; Str "E"; Str "F"] |}
                 "phylum") as [Hasked _].
    + constructor.
    + apply (bool_decide_unpack _). vm_compute. exact I.
    + reflexivity.
    + eexists _, _. split; [vm_compute; reflexivity|].
      eapply Hasked. vm_compute. reflexivity.
  - edestruct (names_dump_null_cell gap_record refuses_null
                 {| labels := rank_order;
                    cells := [Str "A"; NaN; Str "B"; Str "C"; Str "D"; Str "E"; Str "F"] |}
                 "phylum") as [_ Hraises].
    + constructor.
    + apply (bool_decide_unpack _). vm_compute. exact I.
    + reflexivity.
    + apply Hraises. intros v Hv. eexists.
      unfold refuses_null, get_name_translator. cbn [forallb].
      unfold notna. rewrite Hv. reflexivity.
Defined.

Lemma names_ids_are_nodes_witness :
  ∃ names nodes t1 t2,
    create_names_dump mammals knows_some = Ok (names, t1) ∧
    create_nodes_dump mammals knows_some = Ok (nodes, t2) ∧
    ∀ c, c ∈ emitted_cells mammals →
      ∃ parent_id rank, nodes_line (py_str (the_id knows_some c.2)) parent_id rank ∈ nodes.
Proof.
  edestruct (names_ids_are_nodes mammals knows_some) as (_ & _ & Hids);
    [exact complete_mammals|vm_compute; reflexivity|vm_compute; reflexivity|].
  eexists _, _, _, _. split; [vm_compute; reflexivity|].
  split; [vm_compute; reflexivity|exact Hids].
Defined.

Lemma emitters_read_ranks_only_witness :
  create_names_dump one_cell knows_some = create_names_dump one_cell_noted knows_some ∧
  create_nodes_dump one_cell knows_some = create_nodes_dump one_cell_noted knows_some.
Proof.
  apply (emitters_read_ranks_only one_cell one_cell_noted knows_some).
  repeat constructor. intros level Hlevel.
  assert (Hall : Forall (λ level,
                   series_get {| labels := ["kingdom"]; cells := [Str "A"] |} level
                   = series_get {| labels := ["note"; "kingdom"];
                                   cells := [Str "n"; Str "A"] |} level) rank_order)
    by (repeat constructor).
  rewrite Forall_forall in Hall. exact (Hall level Hlevel).
Defined.

Lemma names_dump_adjacent_copy_witness :
  ∃ lines t,
    create_names_dump mammals knows_some = Ok (lines, t) ∧
    create_names_dump mammals_doubled knows_some = Ok (lines, t).
Proof.
  eexists _, _. split; [vm_compute; reflexivity|].
  apply (names_dump_adjacent_copy mammals mammals_doubled knows_some
           [] (drop 1 (values mammals))
           [Str "Metazoa"; Str "Chordata"; Str "Mammalia"; Str "Carnivora";
            Str "Canidae"; Str "Canis"; Str "Canis lupus"]).
  - reflexivity.
  - reflexivity.
  - reflexivity.
  - intros level Hlevel.
    assert (Hall : Forall (λ level,
                     notna (cell_of {| labels := columns mammals;
                                       cells := [Str "Metazoa"; Str "Chordata";
                                                 Str "Mammalia"; Str "Carnivora";
                                                 Str "Canidae"; Str "Canis";
                                                 Str "Canis lupus"] |} level) = true)
                          rank_order)
      by (repeat constructor).
    rewrite Forall_forall in Hall. exact (Hall level Hlevel).
  - vm_compute. reflexivity.
Defined.

Lemma impute_taxons_closes_gaps_witness :
  ∃ out h' d',
    Typed.impute_taxons 5 {[ 5%nat := gaps_typed ]} = Some (Ok out, h') ∧
    h' !! out = Some d' ∧
    (∀ row rank, row ∈ rows (frame d') → rank ∈ columns (frame d') →
                 notna (cell_of row rank) = true) ∧
    (∀ row, row ∈ rows (frame d') →
       length (steps_of row (available_ranks (frame d')) (Str "root"))
       = length (available_ranks (frame d'))) ∧
    length (all_steps (frame d'))
    = (length (rows (frame d')) * length (available_ranks (frame d')))%nat.
Proof.
  apply (impute_taxons_closes_gaps {[ 5%nat := gaps_typed ]} 5 gaps_typed).
  - reflexivity.
  - intros r [|[|c]] v _ _ Hc; discriminate Hc.
  - repeat constructor.
Defined.

Lemma sort_taxonomy_data_keeps_witness :
  columns (sort_taxonomy_data turn_round mammals) = columns mammals ∧
  values mammals ≡ₚ values (sort_taxonomy_data turn_round mammals) ∧
  written_pairs mammals knows_some
  ≡ₚ written_pairs (sort_taxonomy_data turn_round mammals) knows_some ∧
  ((∃ lines t, create_nodes_dump mammals knows_some = Ok (lines, t)) ↔
   (∃ lines t, create_nodes_dump (sort_taxonomy_data turn_round mammals) knows_some
               = Ok (lines, t))) ∧
  ((∃ lines t, create_names_dump mammals knows_some = Ok (lines, t)) ↔
   (∃ lines t, create_names_dump (sort_taxonomy_data turn_round mammals) knows_some
               = Ok (lines, t))).
Proof.
  apply (sort_taxonomy_data_keeps turn_round mammals knows_some).
  intros by_columns df sorted_df Hsorted. injection Hsorted as <-.
  split; [reflexivity|]. cbn [values]. symmetry. apply reverse_Permutation.
Defined.

Lemma get_taxonomy_data_frame_witness :
  ∃ df,
    get_taxonomy_data ["Escherichia coli"; "Nothing"; "Bacillus subtilis"]
      bacteria_names bacteria = Ok (Some df) ∧
    columns df `sublist_of` RANK_ORDER ∧ NoDup (columns df) ∧
    values df ≠ [] ∧ rectangular df ∧
    ∀ r c v, cell_at df r c = Some v → v = NaN ∨ ∃ name, v = Str name.
Proof.
  eexists. split; [vm_compute; reflexivity|].
  apply (get_taxonomy_data_frame ["Escherichia coli"; "Nothing"; "Bacillus subtilis"]
           bacteria_names bacteria).
  vm_compute. reflexivity.
Defined.


(** The genus of the fruit fly gets no column: the subgenus, of the same
    name, takes its place in [translated_ranks], and its rank is none that
    [RANK_ORDER] has. *)
Lemma get_taxonomy_data_same_name :
  get_rank fruit_fly [1; 7214; 7215; 32281; 7244]%Z
  = Ok [(1, "no rank"); (7214, "family"); (7215, "genus"); (32281, "subgenus");
        (7244, "species")]%Z ∧
  get_taxonomy_data ["Drosophila virilis"] fly_names fruit_fly
  = Ok (Some {| columns := ["no rank"; "family"; "species"];
                values := [[Str "root"; Str "Drosophilidae"; Str "Drosophila virilis"]] |}).
Proof. split; vm_compute; reflexivity. Qed.

Lemma missing_rank_column_stays_witness :
  (∃ e, create_names_dump (sort_taxonomy_data turn_round one_cell) knows_some = Err e) ∧
  ∃ out h' df',
    impute_taxons 5 {[ 5%nat := one_cell ]} = Some (out, h') ∧ h' !! out = Some df' ∧
    ∃ e, create_names_dump (sort_taxonomy_data turn_round df') knows_some = Err e.
Proof.
  apply (missing_rank_column_stays {[ 5%nat := one_cell ]} 5 one_cell "phylum"
           turn_round knows_some).
  - reflexivity.
  - intros by_columns df sorted_df Hsorted. injection Hsorted as <-.
    split; [reflexivity|]. cbn [values]. symmetry. apply reverse_Permutation.
  - discriminate.
  - apply (bool_decide_unpack _). vm_compute. exact I.
  - apply (bool_decide_unpack _). vm_compute. exact I.
Defined.
